(** * basic-service: the controller registry and its dispatcher

    A shallow embedding of [src/basic-service/servers/express-server.ts],
    [src/basic-service/basic-service.ts] and [src/interfaces/controller.ts].

    JavaScript objects that the code shares and mutates (controller objects,
    handler arrays, routers) live in an explicit object store and are named by
    their address; [===] on objects is equality of addresses. *)

From stdpp Require Import base option list gmap strings.
From Stdlib Require Import ZArith Lia.

Open Scope string_scope.
Open Scope list_scope.
Open Scope stdpp_scope.

(** ** Data model ([src/interfaces/controller.ts]) *)

(** Address of an object in the store. *)
Abbreviation loc := nat (only parsing).

Inductive CONTROLLER_METHOD := GET | POST | PUT | DELETE.

#[global] Instance CONTROLLER_METHOD_eq_dec : EqDecision CONTROLLER_METHOD.
Proof. solve_decision. Defined.

Module ControllerHandler.
(** [interface ControllerHandler { method; path; handler }]. *)
Record t := mk { method : CONTROLLER_METHOD; path : string; handler : string }.
End ControllerHandler.

(** A reference to a [ControllerHandler] object.  The server code only reads
    these objects, so a reference carries the object it points to next to its
    address; identity is the address alone. *)
Record HandlerRef := href { addr : loc; obj : ControllerHandler.t }.

(** [a === b] on two object references. *)
Definition strict_eq (a b : HandlerRef) : bool := bool_decide (addr a = addr b).

(** Handle of a controller instance ([instance: any]); its methods are looked
    up by name at request time, see [Dispatcher]. *)
Abbreviation Instance := nat (only parsing).

Module Controller.
(** [interface Controller { name; instance; handler? }]; [handler] holds
    the address of a [ControllerHandler[]] array, or is [undefined]. *)
Record t := mk { name : string; instance : Instance; handler : option loc }.
Definition set_handler (h : option loc) (c : t) : t :=
  {| name := name c; instance := instance c; handler := h |}.
End Controller.

(** ** The HTTP engine, as far as the server drives it *)

(** The closure [async (req, res) => res.send(await controller[handler](req))]
    is determined by the two variables it captures. *)
Record Shim := mkShim { target : Instance; methodName : string }.

(** One [router[method](path, shim)] binding. *)
Record Route := mkRoute { verb : CONTROLLER_METHOD; pattern : string; shim : Shim }.

(** One [app.use(...)] entry, in the order of the calls. *)
Inductive Layer :=
  | JsonParser                              (* express.json() *)
  | Logger (format : string)                (* morgan(format) *)
  | Custom (middleware : nat)               (* addMiddleware(middleware) *)
  | Mounted (router : loc)                  (* app.use(router) *)
  | Static (root : string)                  (* express.static(location) *)
  | SwaggerUi (path : string) (url : string).

(** The [http.Server] returned by [app.listen]. *)
Record HttpServer := mkServer { port : option nat; listening : bool }.

(** Node's [server.close()] without a callback: stops listening and never
    throws, also on a server that is not listening. *)
Definition HttpServer_close (s : HttpServer) : HttpServer :=
  {| port := port s; listening := false |}.

(** What the server depends on in the engine's path compiler: the paths that
    [router[method](path, ...)] and [app.use(path, ...)] accept.  On any other
    path the engine throws, before it has changed anything. *)
Class Engine := {
  route_ok : string → bool;
  mount_ok : string → bool
}.

(** ** State *)

(** A value of [RouterControllerMap]. *)
Record Entry := mkEntry { router : loc; controller : loc }.

(** The fields of the [ExpressServer] object followed by the object store. *)
Record World := mkWorld {
  app : list Layer;
  server : option HttpServer;
  routerControllerMap : gmap string Entry;
  routers : list (list Route);
  controllers : list Controller.t;
  arrays : list (list HandlerRef)
}.

Definition set_app (x : list Layer) (w : World) : World :=
  mkWorld x (server w) (routerControllerMap w) (routers w) (controllers w) (arrays w).
Definition set_server (x : option HttpServer) (w : World) : World :=
  mkWorld (app w) x (routerControllerMap w) (routers w) (controllers w) (arrays w).
Definition set_routerControllerMap (x : gmap string Entry) (w : World) : World :=
  mkWorld (app w) (server w) x (routers w) (controllers w) (arrays w).
Definition set_routers (x : list (list Route)) (w : World) : World :=
  mkWorld (app w) (server w) (routerControllerMap w) x (controllers w) (arrays w).
Definition set_controllers (x : list Controller.t) (w : World) : World :=
  mkWorld (app w) (server w) (routerControllerMap w) (routers w) x (arrays w).
Definition set_arrays (x : list (list HandlerRef)) (w : World) : World :=
  mkWorld (app w) (server w) (routerControllerMap w) (routers w) (controllers w) x.

Inductive JsError :=
  | Error (message : string)
  | TypeError (message : string)
  | EngineError (path : string).     (* the engine's own, for a path it refuses *)

(** Result of a call: normal return, an exception (with the state it leaves
    behind), or [Stuck] when an address is not in the store, which no
    JavaScript execution can reach. *)
Inductive Outcome :=
  | Ok (w : World)
  | Throw (e : JsError) (w : World)
  | Stuck.

Definition bind (o : Outcome) (k : World → Outcome) : Outcome :=
  match o with Ok w => k w | _ => o end.

Notation "'let?' x := e 'in' k" :=
  (match e with Some x => k | None => Stuck end)
  (at level 10, x pattern, e at level 100, k at level 200).

(** ** [ExpressServer] *)

(** Property names every object literal inherits from [Object.prototype]. *)
Definition Object_prototype : list string :=
  [ "constructor"; "__defineGetter__"; "__defineSetter__"; "hasOwnProperty";
    "__lookupGetter__"; "__lookupSetter__"; "isPrototypeOf";
    "propertyIsEnumerable"; "toString"; "valueOf"; "__proto__";
    "toLocaleString" ].

(** Result of reading [this.routerControllerMap[key]]: the map is created by
    the literal [{}], so a key it does not own is looked up on
    [Object.prototype], where it finds a function (or, for [__proto__], the
    prototype itself): a truthy value without [router] and [controller]. *)
Inductive Property :=
  | Own (e : Entry)
  | Inherited
  | Undefined.

Definition get (m : gmap string Entry) (key : string) : Property :=
  match m !! key with
  | Some e => Own e
  | None => if bool_decide (key ∈ Object_prototype) then Inherited else Undefined
  end.

(** [new ExpressServer()], given the objects the caller has created. *)
Definition constructor (cs : list Controller.t) (arrs : list (list HandlerRef)) : World :=
  {| app := [JsonParser; Logger "tiny"];
     server := None;
     routerControllerMap := ∅;
     routers := [];
     controllers := cs;
     arrays := arrs |}.

Definition use (l : Layer) (w : World) : World := set_app (app w ++ [l]) w.

Definition listen (p : option nat) (w : World) : Outcome :=
  Ok (set_server (Some {| port := p; listening := true |}) w).

(** [this.server?.close()]. *)
Definition close (w : World) : Outcome :=
  match server w with
  | None => Ok w
  | Some s => Ok (set_server (Some (HttpServer_close s)) w)
  end.

Definition addMiddleware (middleware : nat) (w : World) : Outcome :=
  Ok (use (Custom middleware) w).

(** [Array.prototype.indexOf]: first index holding the very same object, or -1. *)
Fixpoint indexOf_from (k : Z) (l : list HandlerRef) (h : HandlerRef) : Z :=
  match l with
  | [] => (-1)%Z
  | x :: l' => if strict_eq x h then k else indexOf_from (k + 1)%Z l' h
  end.
Definition indexOf (l : list HandlerRef) (h : HandlerRef) : Z := indexOf_from 0%Z l h.

Definition DuplicateControllerError : JsError := Error "controller already presents".
Definition ControllerNotFoundError : JsError := Error "controller not found".
Definition undefined_read (prop : string) : JsError :=
  TypeError ("Cannot read properties of undefined (reading '" +:+ prop +:+ "')").

(** The argument of [addControllerHandlers]: one handler object, or the
    address of an array of them. *)
Inductive Handlers :=
  | One (h : HandlerRef)
  | Many (a : loc).

(** The closure bound by [router[method](path, ...)] for a declaration. *)
Definition route_of (inst : Instance) (h : HandlerRef) : Route :=
  {| verb := ControllerHandler.method (obj h);
     pattern := ControllerHandler.path (obj h);
     shim := {| target := inst; methodName := ControllerHandler.handler (obj h) |} |}.

(** Body of the [forEach] callback of [addControllerHandlers]. *)
Definition attach {E : Engine} (controllerid : string) (router : loc) (inst : Instance)
    (controllerHandler : HandlerRef) (w : World) : Outcome :=
  (* router[method](path, async (req, res) => ...) *)
  let? stack := routers w !! router in
  if negb (route_ok (ControllerHandler.path (obj controllerHandler)))
  then Throw (EngineError (ControllerHandler.path (obj controllerHandler))) w
  else
  let w := set_routers (<[router := stack ++ [route_of inst controllerHandler]]> (routers w)) w in
  match get (routerControllerMap w) controllerid with
  | Undefined => Throw (undefined_read "controller") w
  | Inherited => Throw (undefined_read "handler") w
  | Own e =>
    let? c := controllers w !! controller e in
    (* if (!...controller.handler) ...controller.handler = [] *)
    let '(a, w) :=
      match Controller.handler c with
      | Some a => (a, w)
      | None =>
        let a := length (arrays w) in
        (a, set_controllers (<[controller e := Controller.set_handler (Some a) c]> (controllers w))
              (set_arrays (arrays w ++ [[]]) w))
      end in
    (* if (...handler?.indexOf(controllerHandler) === -1) ...handler?.push(controllerHandler) *)
    let? l := arrays w !! a in
    if bool_decide (indexOf l controllerHandler = (-1)%Z)
    then Ok (set_arrays (<[a := l ++ [controllerHandler]]> (arrays w)) w)
    else Ok w
  end.

(** [Array.prototype.forEach] on the array at address [a]: the length is read
    once, the elements are read from the store as the loop reaches them.
    [n] indices remain, starting at [k]. *)
Fixpoint forEach (a : loc) (f : HandlerRef → World → Outcome) (n k : nat) (w : World) : Outcome :=
  match n with
  | 0 => Ok w
  | S n' =>
    let? l := arrays w !! a in
    match l !! k with
    | None => forEach a f n' (S k) w
    | Some x => bind (f x w) (forEach a f n' (S k))
    end
  end.

Definition addControllerHandlers {E : Engine} (controllerid : string)
    (controllerHandlers : Handlers) (w : World) : Outcome :=
  match get (routerControllerMap w) controllerid with
  | Undefined => Throw ControllerNotFoundError w
  | Inherited => Throw (undefined_read "instance") w
  | Own e =>
    let router := router e in
    let? c := controllers w !! controller e in
    let controller := Controller.instance c in
    match controllerHandlers with
    | One h => attach controllerid router controller h w      (* [controllerHandlers] *)
    | Many a =>
      let? l := arrays w !! a in
      forEach a (attach controllerid router controller) (length l) 0 w
    end
  end.

Definition createRouterForController (controller : loc) (c : Controller.t) (w : World)
    : loc * World :=
  let router := length (routers w) in
  (router,
   set_routerControllerMap
     (<[Controller.name c := {| router := router; controller := controller |}]>
        (routerControllerMap w))
     (set_routers (routers w ++ [[]]) w)).

(** An exception of [addControllerHandlers] leaves [addController] before
    [app.use(router)], with the entry already filed. *)
Definition addController {E : Engine} (controller : loc) (w : World) : Outcome :=
  let? c := controllers w !! controller in
  match get (routerControllerMap w) (Controller.name c) with
  | Own _ | Inherited => Throw DuplicateControllerError w
  | Undefined =>
    let '(router, w) := createRouterForController controller c w in
    bind (match Controller.handler c with
          | Some a => addControllerHandlers (Controller.name c) (Many a) w
          | None => Ok w
          end)
         (λ w, Ok (use (Mounted router) w))
  end.

Definition DEFAULT_SWAGGER_PATH := "/docs".
Definition DEFAULT_SWAGGER_LOCATION := "public".
Definition DEFAULT_SWAGGER_URL := "/swagger.json".

(** A default parameter value replaces an [undefined] argument only.
    [express.static(location)] throws for an empty root, before anything is
    mounted; [app.use(path, ...)] throws for a path the engine refuses, after
    the static assets have been mounted. *)
Definition prepareSwagger {E : Engine} (path location : option string) (w : World) : Outcome :=
  let path := default DEFAULT_SWAGGER_PATH path in
  let location := default DEFAULT_SWAGGER_LOCATION location in
  if bool_decide (location = "") then Throw (TypeError "root path required") w
  else
    let w := use (Static location) w in
    if negb (mount_ok path) then Throw (EngineError path) w
    else Ok (use (SwaggerUi path DEFAULT_SWAGGER_URL) w).

(** ** [BasicService] ([src/basic-service/basic-service.ts]) *)

Module ServiceConfig.
(** Modelled from the spec: the [ServiceConfig] interface, whose declaration
    in [src/interfaces] is not among the sources:
    [{ port?, docsPath?, swaggerLocation?, swagger?: boolean }]. *)
Record t := mk {
  port : option nat;
  docsPath : option string;
  swaggerLocation : option string;
  swagger : option bool
}.
End ServiceConfig.

Module BasicService.
(** [new BasicService(serviceConfig?)].  The singleton behind
    [Server.getInstance()] is not among the sources; the state of the server
    it hands out is the parameter [w]. *)
Definition constructor {E : Engine} (serviceConfig : option ServiceConfig.t) (w : World)
    : Outcome :=
  (* this.serviceConfig?.swagger !== false *)
  match serviceConfig ≫= ServiceConfig.swagger with
  | Some false => Ok w
  | _ => prepareSwagger (serviceConfig ≫= ServiceConfig.docsPath)
                        (serviceConfig ≫= ServiceConfig.swaggerLocation) w
  end.

Definition run (serviceConfig : option ServiceConfig.t) (w : World) : Outcome :=
  listen (serviceConfig ≫= ServiceConfig.port) w.
End BasicService.

(** ** The dispatch shim installed by [addControllerHandlers] *)

Section Dispatcher.
(** Requests, the values and exceptions of controller methods, and the
    engine's response objects are opaque to the server. *)
Context {Request Value Exn Response : Type}.

Inductive Promise :=
  | Fulfilled (v : Value)
  | Rejected (e : Exn)
  | Pending.

(** What a controller method hands back: a plain value or a promise. *)
Inductive Awaitable :=
  | Plain (v : Value)
  | Thenable (p : Promise).

Inductive Completion :=
  | Returns (a : Awaitable)
  | Throws (e : Exn).

(** The methods of the controller instances at request time:
    [controller[handler]] is looked up when the request arrives. *)
Definition Methods := Instance → string → option (Request → Completion).

(** What a call [res.send(body)] of the engine comes to: it returns or it
    throws, and either way leaves the response object in some state. *)
Inductive Sending :=
  | Sent (res : Response)
  | SendThrew (e : Exn) (res : Response).

(** The engine's [res.send]. *)
Definition Send := Value → Response → Sending.

(** Why the promise of the [async] shim is rejected. *)
Inductive Reason :=
  | Raised (e : Exn)                 (* thrown or rejected by the method *)
  | NotAFunction (name : string)     (* controller[handler] is not callable *)
  | Unsent (e : Exn).                (* thrown by res.send *)

Inductive Settled :=
  | Done
  | Failed (r : Reason)
  | Waiting.

(** One run of the shim: the method calls it made, the arguments it gave to
    [res.send], the response object afterwards and the state of the promise
    it returned. *)
Record Run := mkRun {
  calls : list (Instance * string * Request);
  passed : list Value;
  response : Response;
  result : Settled
}.

Definition after_send (call : Instance * string * Request) (v : Value) (s : Sending) : Run :=
  match s with
  | Sent res => mkRun [call] [v] res Done
  | SendThrew e res => mkRun [call] [v] res (Failed (Unsent e))
  end.

(** [async (req, res) => { const response = await controller[handler](req);
    return res.send(response); }] *)
Definition run_shim (send : Send) (ms : Methods) (s : Shim) (req : Request) (res : Response)
    : Run :=
  match ms (target s) (methodName s) with
  | None => mkRun [] [] res (Failed (NotAFunction (methodName s)))
  | Some m =>
    let call := (target s, methodName s, req) in
    match m req with
    | Throws e => mkRun [call] [] res (Failed (Raised e))
    | Returns (Plain v) => after_send call v (send v res)
    | Returns (Thenable (Fulfilled v)) => after_send call v (send v res)
    | Returns (Thenable (Rejected e)) => mkRun [call] [] res (Failed (Raised e))
    | Returns (Thenable Pending) => mkRun [call] [] res Waiting
    end
  end.

(** The value a method's completion resolves to, if it does. *)
Definition resolved (c : Completion) : option Value :=
  match c with
  | Returns (Plain v) | Returns (Thenable (Fulfilled v)) => Some v
  | _ => None
  end.

(** A request served by the router at address [r], with the response object
    [res] of the engine: the first route whose verb and pattern match handles
    it (the shim never calls [next]).  The state is returned next to the
    run. *)
Definition serve (send : Send) (matches : string → string → bool) (ms : Methods) (r : loc)
    (v : CONTROLLER_METHOD) (url : string) (req : Request) (res : Response) (w : World)
    : World * option Run :=
  (w,
   stack ← routers w !! r;
   route ← list_find (λ route, verb route = v ∧ matches (pattern route) url = true) stack;
   Some (run_shim send ms (shim route.2) req res)).
End Dispatcher.

Arguments Promise : clear implicits.
Arguments Awaitable : clear implicits.
Arguments Completion : clear implicits.
Arguments Methods : clear implicits.
Arguments Sending : clear implicits.
Arguments Send : clear implicits.
Arguments Reason : clear implicits.
Arguments Settled : clear implicits.
Arguments Run : clear implicits.

(** *** The response of express 4 *)

(** Values a controller method resolves to, as far as [res.send] tells them
    apart. *)
Inductive JsValue :=
  | Number (n : nat)
  | Text (s : string).

(** The body of a reply: the value handed to [res.send], or the standard
    message of a status code. *)
Inductive Body :=
  | Payload (v : JsValue)
  | StatusMessage (code : nat).

Record Reply := mkReply { statusCode : nat; body : option Body }.

(** The response object as a route handler receives it. *)
Definition fresh_reply : Reply := {| statusCode := 200; body := None |}.

(** [res.send(body)] of express 4 with one argument: a number is taken as
    the status code, and the message of that status becomes the body; a
    string is sent as the body under the status the response has. *)
Definition express4_send : Send JsValue string Reply :=
  λ v res,
    match v with
    | Number n => Sent {| statusCode := n; body := Some (StatusMessage n) |}
    | Text s => Sent {| statusCode := statusCode res; body := Some (Payload (Text s)) |}
    end.

(** A reply with a success status that carries the value [v] as its body. *)
Definition success_with (v : JsValue) (res : Reply) : Prop :=
  (200 ≤ statusCode res < 300)%nat ∧ body res = Some (Payload v).

(** ** Views and invariants used by the statements *)

(** The handler list recorded for a registered controller; a [handler] field
    that is still [undefined] holds no declaration. *)
Definition handlers_of (w : World) (id : string) : option (list HandlerRef) :=
  e ← routerControllerMap w !! id;
  c ← controllers w !! controller e;
  match Controller.handler c with
  | Some a => arrays w !! a
  | None => Some []
  end.

(** The routes bound in the routing scope of a registered controller. *)
Definition routes_of (w : World) (id : string) : option (list Route) :=
  e ← routerControllerMap w !! id;
  routers w !! router e.

(** The declarations an argument of [addControllerHandlers] stands for. *)
Definition declared (w : World) (hs : Handlers) : list HandlerRef :=
  match hs with
  | One h => [h]
  | Many a => default [] (arrays w !! a)
  end.

(** Every address held by the server or by a controller object is in the store. *)
Definition entry_in (w : World) (e : Entry) : Prop :=
  router e < length (routers w) ∧ controller e < length (controllers w).

Definition handler_in (n : nat) (c : Controller.t) : Prop :=
  match Controller.handler c with
  | Some a => a < n
  | None => True
  end.

Definition wf (w : World) : Prop :=
  map_Forall (λ _ e, entry_in w e) (routerControllerMap w)
  ∧ Forall (handler_in (length (arrays w))) (controllers w).

Definition valid (w : World) (hs : Handlers) : Prop :=
  match hs with
  | One _ => True
  | Many a => a < length (arrays w)
  end.

#[global] Instance handler_in_dec n c : Decision (handler_in n c).
Proof. unfold handler_in. destruct (Controller.handler c); apply _. Defined.

#[global] Instance wf_dec w : Decision (wf w).
Proof. unfold wf, entry_in. apply _. Defined.

#[global] Instance valid_dec w hs : Decision (valid w hs).
Proof. destruct hs; simpl; apply _. Defined.


(** What the guarded [push] does to a list. *)
Definition push_new (l : list HandlerRef) (h : HandlerRef) : list HandlerRef :=
  if bool_decide (addr h ∈ addr <$> l) then l else l ++ [h].

(** The bookkeeping half of [attach]: what it does to the controller object
    of entry [e] and to the handler arrays. *)
Definition record (e : Entry) (h : HandlerRef) (w : World) : World :=
  match controllers w !! controller e with
  | None => w
  | Some c =>
    match Controller.handler c with
    | Some a =>
      match arrays w !! a with
      | Some l => set_arrays (<[a := push_new l h]> (arrays w)) w
      | None => w
      end
    | None =>
      set_controllers
        (<[controller e := Controller.set_handler (Some (length (arrays w))) c]> (controllers w))
        (set_arrays (arrays w ++ [[h]]) w)
    end
  end.

(** The engine half: routes appended to the stack of router [r]. *)
Definition bind_routes (r : loc) (rs : list Route) (w : World) : World :=
  set_routers (alter (λ stack, stack ++ rs) r (routers w)) w.

(** The public operations of the server. *)
Inductive Call :=
  | Listen (p : option nat)
  | Close
  | AddMiddleware (middleware : nat)
  | AddController (controller : loc)
  | AddControllerHandlers (controllerid : string) (hs : Handlers)
  | PrepareSwagger (path location : option string).

Definition call {E : Engine} (op : Call) : World → Outcome :=
  match op with
  | Listen p => listen p
  | Close => close
  | AddMiddleware m => addMiddleware m
  | AddController c => addController c
  | AddControllerHandlers id hs => addControllerHandlers id hs
  | PrepareSwagger p l => prepareSwagger p l
  end.

(** The arguments of a call are objects of the store. *)
Definition admissible (w : World) (op : Call) : Prop :=
  match op with
  | AddController c => c < length (controllers w)
  | AddControllerHandlers _ hs => valid w hs
  | _ => True
  end.

(** The state a call leaves behind, whether it returns or throws. *)
Definition final (o : Outcome) : option World :=
  match o with
  | Ok w | Throw _ w => Some w
  | Stuck => None
  end.

(** A loop over a list of declarations that stops at the first call that
    does not return. *)
Fixpoint each (f : HandlerRef → World → Outcome) (xs : list HandlerRef) (w : World) : Outcome :=
  match xs with
  | [] => Ok w
  | x :: xs' => bind (f x w) (each f xs')
  end.

Definition record_all (e : Entry) (hs : list HandlerRef) (w : World) : World :=
  foldl (λ w h, record e h w) w hs.

(** The loop invariant of [addControllerHandlers]: the store is well formed
    and [controllerid] names entry [e], whose controller has instance [inst]. *)
Definition ready (controllerid : string) (e : Entry) (inst : Instance) (w : World) : Prop :=
  wf w
  ∧ routerControllerMap w !! controllerid = Some e
  ∧ ∃ c, controllers w !! controller e = Some c ∧ Controller.instance c = inst.

(** The declarations a controller object brings to its registration. *)
Definition predeclared (w : World) (ctrl : Controller.t) : list HandlerRef :=
  match Controller.handler ctrl with
  | Some a => default [] (arrays w !! a)
  | None => []
  end.

(** The engine accepts the paths of all these declarations. *)
Definition routable {E : Engine} (hs : list HandlerRef) : Prop :=
  Forall (λ h, route_ok (ControllerHandler.path (obj h)) = true) hs.

#[global] Instance routable_dec {E : Engine} hs : Decision (routable hs).
Proof. unfold routable. apply _. Defined.

(** The declarations of a list before the first one whose path the engine
    refuses, and that path. *)
Fixpoint accepted {E : Engine} (hs : list HandlerRef) : list HandlerRef :=
  match hs with
  | [] => []
  | h :: hs' => if route_ok (ControllerHandler.path (obj h)) then h :: accepted hs' else []
  end.

Fixpoint refused {E : Engine} (hs : list HandlerRef) : option string :=
  match hs with
  | [] => None
  | h :: hs' =>
    if route_ok (ControllerHandler.path (obj h)) then refused hs'
    else Some (ControllerHandler.path (obj h))
  end.

(** Return, or throw what the engine throws for a path. *)
Definition finish (p : option string) (w : World) : Outcome :=
  match p with
  | None => Ok w
  | Some p => Throw (EngineError p) w
  end.

(** ** Sequences of calls *)

(** What client code does with the server: a call on the server itself, or
    the construction or the start of a [BasicService] around it. *)
Inductive Action :=
  | OnServer (op : Call)
  | NewBasicService (serviceConfig : option ServiceConfig.t)
  | RunBasicService (serviceConfig : option ServiceConfig.t).

Definition perform {E : Engine} (a : Action) : World → Outcome :=
  match a with
  | OnServer op => call op
  | NewBasicService cfg => BasicService.constructor cfg
  | RunBasicService cfg => BasicService.run cfg
  end.

Definition allowed (w : World) (a : Action) : Prop :=
  match a with
  | OnServer op => admissible w op
  | _ => True
  end.

#[global] Instance admissible_dec w op : Decision (admissible w op).
Proof. destruct op; simpl; apply _. Defined.

#[global] Instance allowed_dec w a : Decision (allowed w a).
Proof. destruct a; simpl; apply _. Defined.

(** The state after a sequence of actions whose arguments are objects of the
    store; a caller that catches an exception goes on from the state the
    failed call left behind. *)
Fixpoint run_all {E : Engine} (acts : list Action) (w : World) : option World :=
  match acts with
  | [] => Some w
  | a :: acts' =>
    if bool_decide (allowed w a) then final (perform a w) ≫= run_all acts' else None
  end.

(** The declarations an action hands to the server. *)
Definition offered (a : Action) (w : World) : list HandlerRef :=
  match a with
  | OnServer (AddControllerHandlers _ hs) => declared w hs
  | OnServer (AddController c) =>
    default [] (c' ← controllers w !! c; a ← Controller.handler c'; arrays w !! a)
  | _ => []
  end.

(** The routers mounted on the application, in the order of [app.use]. *)
Definition mounted (w : World) : list loc :=
  omap (λ l, match l with Mounted r => Some r | _ => None end) (app w).

(** [w'] holds everything [w] holds: the same entries under the same names,
    the same objects with at most a [handler] field filled in, and every
    stack and array of [w] extended at its end. *)
Definition extends (w w' : World) : Prop :=
  (∀ id e, routerControllerMap w !! id = Some e → routerControllerMap w' !! id = Some e)
  ∧ app w `prefix_of` app w'
  ∧ (∀ r stack, routers w !! r = Some stack →
       ∃ stack', routers w' !! r = Some stack' ∧ stack `prefix_of` stack')
  ∧ (∀ a l, arrays w !! a = Some l →
       ∃ l', arrays w' !! a = Some l' ∧ l `prefix_of` l')
  ∧ (∀ i c, controllers w !! i = Some c →
       ∃ c', controllers w' !! i = Some c'
           ∧ Controller.name c' = Controller.name c
           ∧ Controller.instance c' = Controller.instance c
           ∧ ∀ a, Controller.handler c = Some a → Controller.handler c' = Some a).

(** The shapes of the state a call can leave behind, with the declarations
    it attached on the way. *)
Inductive step_shape (w : World) : list HandlerRef → World → Prop :=
  | shape_same : step_shape w [] w
  | shape_engine x srv :
      Forall (λ l, ∀ r, l ≠ Mounted r) x →
      step_shape w [] (set_server srv (set_app (app w ++ x) w))
  | shape_attach id e c hs :
      routerControllerMap w !! id = Some e →
      controllers w !! controller e = Some c →
      step_shape w hs
        (bind_routes (router e) (route_of (Controller.instance c) <$> hs) (record_all e hs w))
  | shape_register c ctrl hs :
      controllers w !! c = Some ctrl →
      get (routerControllerMap w) (Controller.name ctrl) = Undefined →
      step_shape w hs
        (use (Mounted (length (routers w)))
           (bind_routes (length (routers w)) (route_of (Controller.instance ctrl) <$> hs)
              (record_all {| router := length (routers w); controller := c |} hs
                 (createRouterForController c ctrl w).2)))
  | shape_filed c ctrl hs :
      controllers w !! c = Some ctrl →
      get (routerControllerMap w) (Controller.name ctrl) = Undefined →
      step_shape w hs
        (bind_routes (length (routers w)) (route_of (Controller.instance ctrl) <$> hs)
           (record_all {| router := length (routers w); controller := c |} hs
              (createRouterForController c ctrl w).2)).

(** Every controller has a routing scope of its own: the routers of the
    store are as many as the entries, no two entries share one, and the
    application has them mounted at most once each, in the order they were
    created. *)
Definition own_routers (w : World) : Prop :=
  length (routers w) = size (routerControllerMap w)
  ∧ mounted w `sublist_of` seq 0 (length (routers w))
  ∧ ∀ id1 id2 e1 e2,
      routerControllerMap w !! id1 = Some e1 →
      routerControllerMap w !! id2 = Some e2 →
      router e1 = router e2 → id1 = id2.

(** Every entry is filed under the name of the controller object it points
    to, and under a name that the registry object does not inherit. *)
Definition names_ok (w : World) : Prop :=
  ∀ id e, routerControllerMap w !! id = Some e →
    (id ∉ Object_prototype)
    ∧ ∃ c, controllers w !! controller e = Some c ∧ Controller.name c = id.

(** The declaration objects of the client: what is found at each address.
    A reference is sound when it carries the object of its address. *)
Definition sound (objs : loc → ControllerHandler.t) (h : HandlerRef) : Prop :=
  obj h = objs (addr h).

#[global] Instance ControllerHandler_eq_dec : EqDecision ControllerHandler.t.
Proof. solve_decision. Defined.

#[global] Instance HandlerRef_eq_dec : EqDecision HandlerRef.
Proof. solve_decision. Defined.

#[global] Instance sound_dec objs h : Decision (sound objs h).
Proof. unfold sound. apply _. Defined.

(** The references in the arrays of the store, and the one an action brings,
    are sound. *)
Definition sound_store (objs : loc → ControllerHandler.t) (w : World) : Prop :=
  Forall (Forall (sound objs)) (arrays w).

Definition sound_action (objs : loc → ControllerHandler.t) (a : Action) : Prop :=
  match a with
  | OnServer (AddControllerHandlers _ (One h)) => sound objs h
  | _ => True
  end.

#[global] Instance sound_action_dec objs a : Decision (sound_action objs a).
Proof. destruct a as [[| | | |? [?|?]|]| |]; simpl; apply _. Defined.

(** Every route in the router of an entry was made, for the instance of the
    entry's controller, from a declaration that the controller's handler
    list records. *)
Definition routes_recorded (w : World) : Prop :=
  ∀ id e c stack l,
    routerControllerMap w !! id = Some e →
    controllers w !! controller e = Some c →
    routers w !! router e = Some stack →
    handlers_of w id = Some l →
    ∀ route, route ∈ stack →
      ∃ h, h ∈ l ∧ route = route_of (Controller.instance c) h.

(** ** Sample objects and states *)

(** An engine that, like the path compiler of express, refuses the path
    "?"; every other path it accepts. *)
Definition picky : Engine :=
  {| route_ok p := negb (String.eqb p "?"); mount_ok p := negb (String.eqb p "?") |}.

(** Two distinct declaration objects with the same three fields, and one on
    a path that [picky] refuses. *)
Definition get_test : HandlerRef := href 0 (ControllerHandler.mk GET "/test" "test").
Definition get_test_copy : HandlerRef := href 1 (ControllerHandler.mk GET "/test" "test").
Definition get_question : HandlerRef := href 2 (ControllerHandler.mk GET "?" "test").

(** The declaration objects of the samples, by address. *)
Definition sample_objs (a : loc) : ControllerHandler.t :=
  if bool_decide (a = 2) then ControllerHandler.mk GET "?" "test"
  else ControllerHandler.mk GET "/test" "test".

(** Controller objects: two without a [handler] field, one that declares
    its handlers in the array at address 0. *)
Definition Stub : Controller.t := Controller.mk "Stub" 0 None.
Definition Test : Controller.t := Controller.mk "test" 1 None.
Definition Declared : Controller.t := Controller.mk "declared" 2 (Some 0).

(** A new server next to these objects. *)
Definition fresh : World := constructor [Stub; Test; Declared] [[get_test]].

Definition after (o : Outcome) : World :=
  match o with
  | Ok w | Throw _ w => w
  | Stuck => fresh
  end.

Definition stub_registered : World := after (addController (E := picky) 0 fresh).
Definition test_registered : World := after (addController (E := picky) 1 fresh).
Definition test_attached : World :=
  after (addControllerHandlers (E := picky) "test" (One get_test) test_registered).

(** Controller methods that answer with a promise fulfilled with "pong", and
    methods that answer with the number 404. *)
Definition answering : Methods unit JsValue string :=
  λ _ _, Some (λ _, Returns (Thenable (Fulfilled (Text "pong")))).

Definition numbering : Methods unit JsValue string :=
  λ _ _, Some (λ _, Returns (Plain (Number 404))).

(** A session on the new server of the samples, and a second one that goes
    on from [test_attached]. *)
Definition session : list Action :=
  [ OnServer (AddController 0); OnServer (AddController 1);
    OnServer (AddControllerHandlers "test" (One get_test));
    NewBasicService None; RunBasicService None; OnServer (AddController 2) ].

Definition in_service : World := default fresh (run_all (E := picky) session fresh).

Definition later_calls : list Action :=
  [ OnServer (AddControllerHandlers "test" (Many 0)); OnServer Close;
    NewBasicService None; OnServer (AddController 0); OnServer (AddController 1) ].

Definition later : World :=
  default test_attached (run_all (E := picky) later_calls test_attached).

(** A server with one registered controller, next to an empty array. *)
Definition beside_empty_array : World :=
  after (addController (E := picky) 0 (constructor [Test] [[]])).

(** A new server next to a controller object named like an inherited
    property. *)
Definition misnamed : World := constructor [Controller.mk "constructor" 0 None] [].

(** A new server next to a controller object whose second declaration is on
    a path that [picky] refuses. *)
Definition Broken : Controller.t := Controller.mk "broken" 4 (Some 0).
Definition beside_broken : World := constructor [Broken] [[get_test; get_question]].

(** A server on which two registered controllers share one handler array. *)
Definition sharing : World :=
  after (addController (E := picky) 1
           (after (addController (E := picky) 0
                     (constructor [Controller.mk "a" 0 (Some 0); Controller.mk "b" 1 (Some 0)]
                                  [[]])))).

(** A new server next to two controller objects of one name and instance:
    the first declares its handlers in the array at address 0, which holds
    one object twice, the second declares none. *)
Definition twins : World :=
  constructor [Controller.mk "twin" 3 (Some 0); Controller.mk "twin" 3 None]
              [[get_test; get_test]].

(** Hypotheses on concrete states are settled by evaluation. *)
Ltac by_evaluation := refine (bool_decide_unpack _ _); vm_compute; exact I.

(** ** Basic facts *)

Lemma indexOf_from_absent k l h :
  (0 ≤ k)%Z → indexOf_from k l h = (-1)%Z ↔ addr h ∉ addr <$> l.
Proof.
  revert k. induction l as [|x l IH]; intros k Hk; simpl.
  - split; [intros _; apply not_elem_of_nil | done].
  - unfold strict_eq. rewrite not_elem_of_cons. case_bool_decide as Hx.
    + split; [lia | intros [Hne _]; congruence].
    + rewrite IH by lia. split; [by intros ? | by intros [_ ?]].
Qed.

Lemma indexOf_absent l h : indexOf l h = (-1)%Z ↔ addr h ∉ addr <$> l.
Proof. by apply indexOf_from_absent. Qed.

Lemma guarded_push l h :
  (if bool_decide (indexOf l h = (-1)%Z) then l ++ [h] else l) = push_new l h.
Proof.
  unfold push_new. pose proof (indexOf_absent l h) as [Hl Hr].
  repeat case_bool_decide; try done.
  - by destruct Hl.
  - by destruct H; apply Hr.
Qed.

Lemma push_new_member l h : addr h ∈ addr <$> l → push_new l h = l.
Proof. intros. unfold push_new. by rewrite bool_decide_eq_true_2. Qed.

Lemma push_new_fresh l h : addr h ∉ addr <$> l → push_new l h = l ++ [h].
Proof. intros. unfold push_new. by rewrite bool_decide_eq_false_2. Qed.

Lemma push_new_has l h : addr h ∈ addr <$> push_new l h.
Proof.
  unfold push_new. case_bool_decide; [done|].
  rewrite fmap_app. set_solver.
Qed.

Lemma push_new_idem l h : push_new (push_new l h) h = push_new l h.
Proof. apply push_new_member, push_new_has. Qed.

Lemma push_new_prefix l h : l `prefix_of` push_new l h.
Proof. unfold push_new. case_bool_decide; [done | by apply prefix_app_r]. Qed.

Lemma push_new_NoDup l h : NoDup (addr <$> l) → NoDup (addr <$> push_new l h).
Proof.
  intros Hl. unfold push_new. case_bool_decide as Hin; [done|].
  rewrite fmap_app. apply NoDup_app. split_and!; [done | | apply NoDup_singleton].
  intros x Hx. simpl. rewrite list_elem_of_singleton. by intros ->.
Qed.

Lemma list_insert_alter_eq {A} (f : A → A) (l : list A) i x :
  l !! i = Some x → <[i := f x]> l = alter f i l.
Proof.
  intros Hi. apply list_eq. intros j. destruct (decide (i = j)) as [<-|Hne].
  - rewrite list_lookup_insert_eq by (by eapply lookup_lt_Some).
    by rewrite list_lookup_alter_eq, Hi.
  - by rewrite list_lookup_insert_ne, list_lookup_alter_ne.
Qed.

Lemma get_own m id e : m !! id = Some e → get m id = Own e.
Proof. intros H. unfold get. by rewrite H. Qed.

(** *** The two halves of [attach] *)

Lemma record_fields e h w :
  app (record e h w) = app w ∧ server (record e h w) = server w
  ∧ routerControllerMap (record e h w) = routerControllerMap w
  ∧ routers (record e h w) = routers w
  ∧ length (controllers (record e h w)) = length (controllers w).
Proof.
  unfold record. destruct (controllers w !! controller e) as [c|]; [|done].
  destruct (Controller.handler c) as [a|]; simpl.
  - by destruct (arrays w !! a).
  - by rewrite length_insert.
Qed.

Lemma record_bind_routes e h r rs w :
  record e h (bind_routes r rs w) = bind_routes r rs (record e h w).
Proof.
  unfold record, bind_routes. simpl.
  destruct (controllers w !! controller e) as [c|]; [|done].
  destruct (Controller.handler c) as [a|]; [|done].
  by destruct (arrays w !! a).
Qed.

Lemma record_all_bind_routes e hs r rs w :
  record_all e hs (bind_routes r rs w) = bind_routes r rs (record_all e hs w).
Proof.
  revert w. induction hs as [|h hs IH]; intros w; [done|].
  simpl. by rewrite record_bind_routes, IH.
Qed.

Lemma bind_routes_app r rs1 rs2 w :
  bind_routes r rs2 (bind_routes r rs1 w) = bind_routes r (rs1 ++ rs2) w.
Proof.
  unfold bind_routes, set_routers. simpl. f_equal.
  rewrite list_alter_alter_eq. apply list_alter_ext; [|done].
  intros stack _. simpl. by rewrite <-(assoc_L (++)).
Qed.

Lemma bind_routes_nil r w : bind_routes r [] w = w.
Proof.
  unfold bind_routes. destruct w; unfold set_routers; simpl. f_equal.
  apply list_alter_id. intros stack. apply app_nil_r.
Qed.

Lemma record_append_only e h w a l :
  arrays w !! a = Some l →
  ∃ l', arrays (record e h w) !! a = Some l' ∧ l `prefix_of` l'.
Proof.
  intros Ha. unfold record.
  destruct (controllers w !! controller e) as [c|]; [|by eauto].
  destruct (Controller.handler c) as [a0|]; simpl.
  - destruct (arrays w !! a0) as [l0|] eqn:Ha0; [|by eauto]. simpl.
    destruct (decide (a0 = a)) as [->|Hne].
    + rewrite list_lookup_insert_eq by (by eapply lookup_lt_Some).
      assert (l0 = l) as -> by congruence.
      eexists. split; [done | apply push_new_prefix].
    + rewrite list_lookup_insert_ne by done. eauto.
  - rewrite lookup_app_l by (by eapply lookup_lt_Some). eauto.
Qed.

Lemma wf_entry w id e :
  wf w → routerControllerMap w !! id = Some e → entry_in w e.
Proof. intros [Hm _] He. by apply (Hm id e). Qed.

Lemma wf_handler w i c :
  wf w → controllers w !! i = Some c → handler_in (length (arrays w)) c.
Proof. intros [_ Hc] Hi. by eapply (proj1 (Forall_lookup _ _) Hc). Qed.

Lemma record_wf e h w : wf w → wf (record e h w).
Proof.
  intros Hwf. unfold record.
  destruct (controllers w !! controller e) as [c|] eqn:Hc; [|done].
  pose proof (wf_handler _ _ _ Hwf Hc) as Hin. destruct Hwf as [Hm Hcs].
  unfold handler_in in Hin. destruct (Controller.handler c) as [a|] eqn:Hh.
  - destruct (arrays w !! a) as [l|]; [|done].
    split; simpl; [done|]. by rewrite length_insert.
  - split; simpl.
    + intros k e' He'. destruct (Hm k e' He') as [? ?].
      split; simpl; [done|]. by rewrite length_insert.
    + rewrite length_app. simpl. apply Forall_insert.
      * eapply Forall_impl; [done|]. intros c'. unfold handler_in.
        destruct (Controller.handler c'); [lia|done].
      * unfold handler_in. simpl. lia.
Qed.

Lemma bind_routes_wf r rs w : wf w → wf (bind_routes r rs w).
Proof.
  intros [Hm Hcs]. split; simpl; [|done].
  intros k e He. destruct (Hm k e He) as [? ?].
  split; simpl; [by rewrite length_alter | done].
Qed.

Lemma record_ready id e inst h w : ready id e inst w → ready id e inst (record e h w).
Proof.
  intros (Hwf & He & c & Hc & Hinst).
  split_and!; [by apply record_wf | by rewrite (proj1 (proj2 (proj2 (record_fields e h w)))) |].
  unfold record. rewrite Hc. destruct (Controller.handler c) as [a|] eqn:Hh.
  - destruct (arrays w !! a); simpl; eauto.
  - simpl. rewrite list_lookup_insert_eq by (by eapply lookup_lt_Some). eauto.
Qed.

Lemma bind_routes_ready id e inst r rs w :
  ready id e inst w → ready id e inst (bind_routes r rs w).
Proof.
  intros (Hwf & He & Hc). split_and!; [by apply bind_routes_wf | done | done].
Qed.

Lemma record_all_ready id e inst hs w :
  ready id e inst w → ready id e inst (record_all e hs w).
Proof.
  revert w. induction hs as [|h hs IH]; intros w Hw; [done|].
  simpl. by apply IH, record_ready.
Qed.

(** *** The engine's verdict on a list of declarations *)

Lemma refused_None {E : Engine} hs : refused hs = None ↔ routable hs.
Proof.
  unfold routable. induction hs as [|h hs IH]; simpl; [done|].
  rewrite Forall_cons. destruct (route_ok _).
  - rewrite IH. split; [by intros ? | by intros [_ ?]].
  - split; [done | by intros [? _]].
Qed.

Lemma accepted_routable {E : Engine} hs : routable hs → accepted hs = hs.
Proof.
  unfold routable. induction 1 as [|h hs Hh _ IH]; simpl; [done|]. by rewrite Hh, IH.
Qed.

Lemma accepted_prefix {E : Engine} hs : accepted hs `prefix_of` hs.
Proof.
  induction hs as [|h hs IH]; simpl; [done|].
  destruct (route_ok _); [by apply prefix_cons | apply prefix_nil].
Qed.

Lemma accepted_all {E : Engine} hs : routable (accepted hs).
Proof.
  unfold routable. induction hs as [|h hs IH]; simpl; [done|].
  destruct (route_ok _) eqn:Hh; [by constructor | done].
Qed.

(** [attach] returns when the engine accepts the path, and then does what
    its two halves do; otherwise it throws and changes nothing. *)
Lemma attach_ready {E : Engine} id e inst h w :
  ready id e inst w → route_ok (ControllerHandler.path (obj h)) = true →
  attach id (router e) inst h w
  = Ok (bind_routes (router e) [route_of inst h] (record e h w)).
Proof.
  intros (Hwf & He & c & Hc & Hinst) Hok.
  destruct (wf_entry _ _ _ Hwf He) as [Hr _].
  destruct (lookup_lt_is_Some_2 _ _ Hr) as [stack Hstack].
  pose proof (wf_handler _ _ _ Hwf Hc) as Hin.
  unfold attach. rewrite Hstack, Hok. simpl. rewrite (get_own _ _ _ He). simpl. rewrite Hc.
  unfold record. rewrite Hc. unfold handler_in in Hin.
  destruct (Controller.handler c) as [a|] eqn:Hh; simpl.
  - destruct (lookup_lt_is_Some_2 _ _ Hin) as [l Hl]. rewrite Hl.
    unfold bind_routes, set_routers, set_arrays. simpl.
    rewrite (list_insert_alter_eq (λ s, s ++ [route_of inst h]) _ _ _ Hstack).
    rewrite <-guarded_push. case_bool_decide; [done|].
    by rewrite (list_insert_id _ _ _ Hl).
  - rewrite lookup_app_r by done. rewrite Nat.sub_diag. simpl.
    unfold bind_routes, set_routers, set_arrays, set_controllers. simpl.
    rewrite (list_insert_alter_eq (λ s, s ++ [route_of inst h]) _ _ _ Hstack).
    replace (length (arrays w)) with (length (arrays w) + 0) at 2 by lia.
    by rewrite insert_app_r.
Qed.

Lemma attach_refused {E : Engine} id e inst h w :
  ready id e inst w → route_ok (ControllerHandler.path (obj h)) = false →
  attach id (router e) inst h w = Throw (EngineError (ControllerHandler.path (obj h))) w.
Proof.
  intros (Hwf & He & _) Hno. destruct (wf_entry _ _ _ Hwf He) as [Hr _].
  destruct (lookup_lt_is_Some_2 _ _ Hr) as [stack Hstack].
  unfold attach. by rewrite Hstack, Hno.
Qed.

Lemma each_attach {E : Engine} id e inst hs w :
  ready id e inst w →
  each (attach id (router e) inst) hs w
  = finish (refused hs)
      (bind_routes (router e) (route_of inst <$> accepted hs) (record_all e (accepted hs) w)).
Proof.
  revert w. induction hs as [|h hs IH]; intros w Hw; simpl.
  - by rewrite bind_routes_nil.
  - destruct (route_ok (ControllerHandler.path (obj h))) eqn:Hok.
    + rewrite (attach_ready _ _ _ _ _ Hw Hok). simpl.
      rewrite IH by (by apply bind_routes_ready, record_ready).
      by rewrite record_all_bind_routes, bind_routes_app.
    + rewrite (attach_refused _ _ _ _ _ Hw Hok). simpl. by rewrite bind_routes_nil.
Qed.

Lemma each_one f h w : each f [h] w = f h w.
Proof. simpl. by destruct (f h w). Qed.

(** *** [forEach] over an array that the callback may extend *)

Lemma forEach_each (P : World → Prop) a f ls :
  (∀ x w w', P w → f x w = Ok w' →
     P w' ∧ ∀ l, arrays w !! a = Some l → ∃ l', arrays w' !! a = Some l' ∧ l `prefix_of` l') →
  ∀ n k w l,
    P w → arrays w !! a = Some l → ls `prefix_of` l → k + n = length ls →
    forEach a f n k w = each f (drop k ls) w.
Proof.
  intros Hf. induction n as [|n IH]; intros k w l Hw Ha Hpre Hlen; simpl.
  - by rewrite drop_ge by lia.
  - rewrite Ha.
    destruct (lookup_lt_is_Some_2 ls k) as [x Hx]; [lia|].
    rewrite (prefix_lookup_Some _ _ _ _ Hx Hpre).
    rewrite (drop_S _ _ _ Hx). simpl.
    destruct (f x w) as [w'| |] eqn:Hfx; simpl; [|done..].
    destruct (Hf x w w' Hw Hfx) as (Hw' & Happ).
    destruct (Happ l Ha) as (l' & Ha' & Hll').
    apply (IH (S k) w' l'); [done | done | by etrans | lia].
Qed.

(** What [addControllerHandlers] does on a registered name: it attaches the
    declarations up to the first one the engine refuses, and throws on that
    one. *)
Lemma addControllerHandlers_eq {E : Engine} id e hs w :
  wf w → routerControllerMap w !! id = Some e → valid w hs →
  ∃ c, controllers w !! controller e = Some c
    ∧ addControllerHandlers id hs w
      = finish (refused (declared w hs))
          (bind_routes (router e)
             (route_of (Controller.instance c) <$> accepted (declared w hs))
             (record_all e (accepted (declared w hs)) w)).
Proof.
  intros Hwf He Hhs.
  destruct (wf_entry _ _ _ Hwf He) as [_ Hc].
  destruct (lookup_lt_is_Some_2 _ _ Hc) as [c Hcc].
  exists c. split; [done|].
  assert (ready id e (Controller.instance c) w) as Hready by (split_and!; eauto).
  unfold addControllerHandlers. rewrite (get_own _ _ _ He). simpl. rewrite Hcc.
  destruct hs as [h|a].
  - rewrite <-(each_one (attach id (router e) (Controller.instance c)) h w).
    by apply each_attach.
  - simpl in Hhs. destruct (lookup_lt_is_Some_2 _ _ Hhs) as [l Hl]. simpl. rewrite Hl. simpl.
    rewrite (forEach_each (ready id e (Controller.instance c)) a _ l) with (l := l);
      [by apply each_attach | | done | done | done | lia].
    intros x w0 w' Hw0 Hx.
    destruct (route_ok (ControllerHandler.path (obj x))) eqn:Hok.
    + rewrite (attach_ready _ _ _ _ _ Hw0 Hok) in Hx. simplify_eq.
      split; [by apply bind_routes_ready, record_ready|].
      intros l0 Hl0. simpl. by apply record_append_only.
    + by rewrite (attach_refused _ _ _ _ _ Hw0 Hok) in Hx.
Qed.

(** *** Registration *)

Lemma createRouterForController_wf c ctrl w :
  wf w → c < length (controllers w) → wf (createRouterForController c ctrl w).2.
Proof.
  intros [Hm Hcs] Hc. split; simpl; [|done].
  apply map_Forall_insert_2.
  - split; simpl; [rewrite length_app; simpl; lia | done].
  - intros k e He. destruct (Hm k e He) as [? ?].
    split; simpl; [rewrite length_app; simpl; lia | done].
Qed.

(** What [addController] does under a free name: it files the entry, attaches
    the declarations up to the first one the engine refuses, and mounts the
    router unless the engine has refused one. *)
Lemma addController_eq {E : Engine} w c ctrl :
  wf w → controllers w !! c = Some ctrl →
  get (routerControllerMap w) (Controller.name ctrl) = Undefined →
  let r := length (routers w) in
  let e := {| router := r; controller := c |} in
  let hs := predeclared w ctrl in
  addController c w
  = bind (finish (refused hs)
            (bind_routes r (route_of (Controller.instance ctrl) <$> accepted hs)
               (record_all e (accepted hs) (createRouterForController c ctrl w).2)))
         (λ w, Ok (use (Mounted r) w)).
Proof.
  intros Hwf Hc Hget r e hs. unfold addController. rewrite Hc, Hget.
  pose proof (createRouterForController_wf c ctrl w Hwf (lookup_lt_Some _ _ _ Hc)) as Hwf1.
  Opaque createRouterForController. simpl. Transparent createRouterForController.
  change (createRouterForController c ctrl w) with
    (r, (createRouterForController c ctrl w).2) at 1.
  set (w1 := (createRouterForController c ctrl w).2) in *.
  subst hs. unfold predeclared. destruct (Controller.handler ctrl) as [a|] eqn:Hh.
  - assert (routerControllerMap w1 !! Controller.name ctrl = Some e) as He
      by apply lookup_insert_eq.
    assert (valid w1 (Many a)) as Hv.
    { pose proof (wf_handler _ _ _ Hwf Hc) as Hin. unfold handler_in in Hin.
      by rewrite Hh in Hin. }
    destruct (addControllerHandlers_eq _ _ _ _ Hwf1 He Hv) as (c' & Hc' & ->).
    simpl in Hc'. assert (c' = ctrl) as -> by congruence. done.
  - simpl. by rewrite bind_routes_nil.
Qed.

(** *** The views after each half of [attach] *)

Lemma record_member e c a l h w :
  controllers w !! controller e = Some c → Controller.handler c = Some a →
  arrays w !! a = Some l → addr h ∈ addr <$> l →
  record e h w = w.
Proof.
  intros Hc Hh Ha Hin. unfold record. rewrite Hc, Hh, Ha.
  rewrite (push_new_member _ _ Hin), (list_insert_id _ _ _ Ha). by destruct w.
Qed.

Lemma record_all_members e c a l hs w :
  controllers w !! controller e = Some c → Controller.handler c = Some a →
  arrays w !! a = Some l → (∀ h, h ∈ hs → addr h ∈ addr <$> l) →
  record_all e hs w = w.
Proof.
  intros Hc Hh Ha. induction hs as [|h hs IH]; intros Hin; [done|].
  simpl. rewrite (record_member _ _ _ _ _ _ Hc Hh Ha) by (apply Hin; set_solver).
  apply IH. intros h' ?. apply Hin. set_solver.
Qed.

Lemma handlers_of_record id e inst h l w :
  ready id e inst w → handlers_of w id = Some l →
  handlers_of (record e h w) id = Some (push_new l h).
Proof.
  intros (Hwf & He & c & Hc & _). unfold handlers_of.
  rewrite (proj1 (proj2 (proj2 (record_fields e h w)))), He. simpl. rewrite Hc. simpl.
  pose proof (wf_handler _ _ _ Hwf Hc) as Hin. unfold handler_in in Hin.
  unfold record. rewrite Hc.
  destruct (Controller.handler c) as [a|] eqn:Hh.
  - intros Ha. rewrite Ha. simpl. rewrite Hc. simpl. rewrite Hh.
    by rewrite list_lookup_insert_eq.
  - intros [= <-]. simpl.
    rewrite list_lookup_insert_eq by (by eapply lookup_lt_Some). simpl.
    rewrite lookup_app_r by done. by rewrite Nat.sub_diag.
Qed.

Lemma handlers_of_record_all id e inst hs l w :
  ready id e inst w → handlers_of w id = Some l →
  handlers_of (record_all e hs w) id = Some (foldl push_new l hs).
Proof.
  revert l w. induction hs as [|h hs IH]; intros l w Hw Hl; [done|].
  simpl. apply (IH _ _ (record_ready _ _ _ h _ Hw)).
  by eapply handlers_of_record.
Qed.

Lemma handlers_of_bind_routes id r rs w :
  handlers_of (bind_routes r rs w) id = handlers_of w id.
Proof. done. Qed.

Lemma routes_of_record_all id e hs w :
  routes_of (record_all e hs w) id = routes_of w id.
Proof.
  revert w. induction hs as [|h hs IH]; intros w; [done|].
  simpl. rewrite IH. unfold routes_of.
  destruct (record_fields e h w) as (_ & _ & -> & -> & _). done.
Qed.

Lemma routes_of_bind_routes id e rs w :
  routerControllerMap w !! id = Some e →
  routes_of (bind_routes (router e) rs w) id
  = (λ stack, stack ++ rs) <$> routes_of w id.
Proof.
  intros He. unfold routes_of. simpl. rewrite He. simpl.
  apply list_lookup_alter_eq.
Qed.

Lemma ready_views id e inst w :
  ready id e inst w → is_Some (handlers_of w id) ∧ is_Some (routes_of w id).
Proof.
  intros (Hwf & He & c & Hc & _).
  destruct (wf_entry _ _ _ Hwf He) as [Hr _].
  pose proof (wf_handler _ _ _ Hwf Hc) as Hin. unfold handler_in in Hin.
  unfold handlers_of, routes_of. rewrite He. simpl. rewrite Hc. simpl. split.
  - destruct (Controller.handler c); [by apply lookup_lt_is_Some_2 | by eexists].
  - by apply lookup_lt_is_Some_2.
Qed.

(** *** The keeping of the store invariant *)

Lemma record_all_wf e hs w : wf w → wf (record_all e hs w).
Proof.
  revert w. induction hs as [|h hs IH]; intros w Hw; [done|].
  simpl. by apply IH, record_wf.
Qed.

Lemma use_wf x w : wf w → wf (use x w).
Proof. done. Qed.

Lemma record_all_fields e hs w :
  app (record_all e hs w) = app w ∧ server (record_all e hs w) = server w
  ∧ routerControllerMap (record_all e hs w) = routerControllerMap w
  ∧ routers (record_all e hs w) = routers w.
Proof.
  revert w. induction hs as [|h hs IH]; intros w; [done|].
  simpl. destruct (IH (record e h w)) as (-> & -> & -> & ->).
  destruct (record_fields e h w) as (-> & -> & -> & -> & _). done.
Qed.

Lemma get_undefined m key :
  get m key = Undefined ↔ m !! key = None ∧ key ∉ Object_prototype.
Proof.
  unfold get. destruct (m !! key); [by split; [|intros [? _]]|].
  case_bool_decide; split; try done. by intros [_ ?].
Qed.

Lemma get_cases m key :
  (∃ e, m !! key = Some e ∧ get m key = Own e)
  ∨ (m !! key = None ∧ key ∈ Object_prototype ∧ get m key = Inherited)
  ∨ (m !! key = None ∧ (key ∉ Object_prototype) ∧ get m key = Undefined).
Proof.
  unfold get. destruct (m !! key) as [e|]; [left; eauto|].
  right. case_bool_decide; [left | right]; done.
Qed.

Lemma final_finish p w : final (finish p w) = Some w.
Proof. by destruct p. Qed.

Lemma finish_Ok p w w' : finish p w = Ok w' ↔ p = None ∧ w' = w.
Proof. destruct p; simpl; split; [done | by intros [? _] | by intros [= <-] | by intros [_ ->]]. Qed.

(** *** Sequences of calls *)

(** Every call on a well-formed state returns or throws, and leaves one of
    the five shapes, having attached some first part of the declarations it
    was given. *)
Lemma perform_shape {E : Engine} a w :
  wf w → allowed w a →
  ∃ w' ds, final (perform a w) = Some w' ∧ step_shape w ds w' ∧ ds `prefix_of` offered a w.
Proof.
  intros Hwf Ha.
  assert (∀ p l, ∃ w' ds, final (prepareSwagger p l w) = Some w' ∧ step_shape w ds w'
                          ∧ ds `prefix_of` []) as Hswagger.
  { intros p l. unfold prepareSwagger. case_bool_decide.
    { exists w, []. split_and!; [done | constructor | done]. }
    destruct (mount_ok _); simpl.
    - eexists _, []. split_and!; [done | | done]. unfold use. simpl.
      replace (set_app _ _) with
        (set_server (server w)
           (set_app (app w ++ [Static (default DEFAULT_SWAGGER_LOCATION l);
                               SwaggerUi (default DEFAULT_SWAGGER_PATH p) DEFAULT_SWAGGER_URL])
              w)).
      + apply shape_engine. by repeat constructor.
      + unfold set_server, set_app. simpl. by rewrite <-(assoc_L (++)).
    - eexists _, []. split_and!; [done | | done]. unfold use.
      replace (set_app _ w) with
        (set_server (server w)
           (set_app (app w ++ [Static (default DEFAULT_SWAGGER_LOCATION l)]) w))
        by (by destruct w).
      apply shape_engine. by repeat constructor. }
  assert (∀ p, ∃ w' ds, final (listen p w) = Some w' ∧ step_shape w ds w'
                        ∧ ds `prefix_of` []) as Hlisten.
  { intros p. eexists _, []. split_and!; [done | | done]. unfold listen.
    replace (set_server _ w) with
      (set_server (Some {| port := p; listening := true |}) (set_app (app w ++ []) w)).
    - apply shape_engine. constructor.
    - unfold set_server, set_app. simpl. by rewrite app_nil_r. }
  destruct a as [op|cfg|cfg]; simpl in *.
  - destruct op as [p| |m|c|id hs|p l]; simpl in *.
    + apply Hlisten.
    + unfold close. destruct (server w) as [s|] eqn:Hs.
      * eexists _, []. split_and!; [done | | done].
        replace (set_server _ w) with
          (set_server (Some (HttpServer_close s)) (set_app (app w ++ []) w)).
        -- apply shape_engine. constructor.
        -- unfold set_server, set_app. simpl. by rewrite app_nil_r.
      * exists w, []. split_and!; [done | constructor | done].
    + eexists _, []. split_and!; [done | | done]. unfold addMiddleware, use.
      replace (set_app _ w) with (set_server (server w) (set_app (app w ++ [Custom m]) w))
        by (by destruct w).
      apply shape_engine. by repeat constructor.
    + destruct (lookup_lt_is_Some_2 _ _ Ha) as [ctrl Hctrl]. rewrite Hctrl. simpl.
      change (default [] (Controller.handler ctrl ≫= λ a, arrays w !! a))
        with (default [] (Controller.handler ctrl ≫= (arrays w !!.))).
      assert (default [] (Controller.handler ctrl ≫= (arrays w !!.)) = predeclared w ctrl)
        as -> by (unfold predeclared; by destruct (Controller.handler ctrl)).
      destruct (get (routerControllerMap w) (Controller.name ctrl)) eqn:Hget.
      1,2: exists w, []; unfold addController; rewrite Hctrl, Hget;
        split_and!; [done | constructor | apply prefix_nil].
      rewrite (addController_eq _ _ _ Hwf Hctrl Hget).
      destruct (refused (predeclared w ctrl)); simpl.
      * eexists _, _. split_and!; [done | by apply shape_filed | apply accepted_prefix].
      * eexists _, _. split_and!; [done | by apply shape_register | apply accepted_prefix].
    + destruct (routerControllerMap w !! id) as [e|] eqn:He.
      * destruct (addControllerHandlers_eq _ _ _ _ Hwf He Ha) as (c & Hc & ->).
        rewrite final_finish.
        eexists _, _. split_and!; [done | by eapply shape_attach | apply accepted_prefix].
      * exists w, []. unfold addControllerHandlers, get. rewrite He.
        case_bool_decide; (split_and!; [done | constructor | apply prefix_nil]).
    + apply Hswagger.
  - unfold BasicService.constructor.
    destruct (cfg ≫= ServiceConfig.swagger) as [[|]|]; try apply Hswagger.
    exists w, []. split_and!; [done | constructor | done].
  - apply Hlisten.
Qed.

Lemma step_shape_wf w ds w' : wf w → step_shape w ds w' → wf w'.
Proof.
  intros Hwf [|x srv _|id e c hs _ _|c ctrl hs Hc _|c ctrl hs Hc _]; [done | done | | |].
  - by apply bind_routes_wf, record_all_wf.
  - apply use_wf, bind_routes_wf, record_all_wf, createRouterForController_wf; [done|].
    by eapply lookup_lt_Some.
  - apply bind_routes_wf, record_all_wf, createRouterForController_wf; [done|].
    by eapply lookup_lt_Some.
Qed.

(** An invariant that every shape keeps, for the actions of a given kind,
    holds after every sequence of such actions. *)
Lemma run_all_invariant {E : Engine} (P : World → Prop) (A : Action → Prop) :
  (∀ w a ds w', wf w → P w → A a → ds `prefix_of` offered a w →
     step_shape w ds w' → P w') →
  ∀ acts w w', Forall A acts → wf w → P w → run_all acts w = Some w' → wf w' ∧ P w'.
Proof.
  intros Hstep. induction acts as [|a acts IH]; intros w w' HA Hwf HP Hrun; simpl in Hrun.
  - by simplify_eq.
  - case_bool_decide as Ha; [|done]. apply Forall_cons in HA as [HAa HA].
    destruct (perform_shape a w Hwf Ha) as (w1 & ds & Hfin & Hshape & Hds).
    rewrite Hfin in Hrun. simpl in Hrun.
    apply (IH w1); [done | by eapply step_shape_wf | by eapply Hstep | done].
Qed.

Lemma run_all_keeps {E : Engine} (P : World → Prop) :
  (∀ w ds w', wf w → P w → step_shape w ds w' → P w') →
  ∀ acts w w', wf w → P w → run_all acts w = Some w' → wf w' ∧ P w'.
Proof.
  intros Hstep acts w w' Hwf HP Hrun.
  apply (run_all_invariant P (λ _, True)) with (acts := acts) (w := w); try done.
  - intros ? ? ? ? ? ? _ _ ?. by eapply Hstep.
  - by apply Forall_true.
Qed.

(** A preorder that every shape respects relates the two ends of a sequence. *)
Lemma run_all_relation {E : Engine} (R : World → World → Prop) :
  (∀ w, R w w) → (∀ w1 w2 w3, R w1 w2 → R w2 w3 → R w1 w3) →
  (∀ w ds w', wf w → step_shape w ds w' → R w w') →
  ∀ acts w w', wf w → run_all acts w = Some w' → R w w'.
Proof.
  intros Hrefl Htrans Hstep. induction acts as [|a acts IH]; intros w w' Hwf Hrun;
    simpl in Hrun.
  - by simplify_eq.
  - case_bool_decide as Ha; [|done].
    destruct (perform_shape a w Hwf Ha) as (w1 & ds & Hfin & Hshape & _).
    rewrite Hfin in Hrun. simpl in Hrun.
    apply (Htrans _ w1); [by eapply Hstep|].
    apply IH; [by eapply step_shape_wf | done].
Qed.

Lemma run_all_wf {E : Engine} acts w w' : wf w → run_all acts w = Some w' → wf w'.
Proof.
  intros Hwf Hrun.
  by destruct (run_all_keeps (λ _, True) (λ _ _ _ _ _ _, I) acts w w' Hwf I Hrun).
Qed.

Lemma constructor_wf cs arrs : Forall (handler_in (length arrs)) cs → wf (constructor cs arrs).
Proof. intros Hcs. split; [|done]. simpl. apply map_Forall_empty. Qed.
(** *** Nothing is removed *)

Lemma extends_refl w : extends w w.
Proof. split_and!; eauto. Qed.

Lemma extends_trans w1 w2 w3 : extends w1 w2 → extends w2 w3 → extends w1 w3.
Proof.
  intros (Hm1 & Ha1 & Hr1 & Hh1 & Hc1) (Hm2 & Ha2 & Hr2 & Hh2 & Hc2). split_and!.
  - eauto.
  - by etrans.
  - intros r s Hs. destruct (Hr1 r s Hs) as (s' & Hs' & ?).
    destruct (Hr2 r s' Hs') as (s'' & ? & ?). exists s''. split; [done | by etrans].
  - intros a l Hl. destruct (Hh1 a l Hl) as (l' & Hl' & ?).
    destruct (Hh2 a l' Hl') as (l'' & ? & ?). exists l''. split; [done | by etrans].
  - intros i c Hc. destruct (Hc1 i c Hc) as (c' & Hc' & Hn & Hi & Hh).
    destruct (Hc2 i c' Hc') as (c'' & ? & Hn' & Hi' & Hh').
    exists c''. split_and!; [done | congruence | congruence | eauto].
Qed.

Lemma extends_record e h w : extends w (record e h w).
Proof.
  split_and!.
  - by rewrite (proj1 (proj2 (proj2 (record_fields e h w)))).
  - by rewrite (proj1 (record_fields e h w)).
  - rewrite (proj1 (proj2 (proj2 (proj2 (record_fields e h w))))). eauto.
  - intros a l. apply record_append_only.
  - intros i c Hc. unfold record.
    destruct (controllers w !! controller e) as [c0|] eqn:Hc0; [|by exists c].
    destruct (Controller.handler c0) as [a|] eqn:Hh.
    + destruct (arrays w !! a); exists c; eauto.
    + simpl. destruct (decide (controller e = i)) as [<-|Hne].
      * rewrite list_lookup_insert_eq by (by eapply lookup_lt_Some).
        assert (c0 = c) as -> by congruence.
        eexists. split_and!; [done | done | done |]. intros a. by rewrite Hh.
      * rewrite list_lookup_insert_ne by done. exists c. eauto.
Qed.

Lemma extends_record_all e hs w : extends w (record_all e hs w).
Proof.
  revert w. induction hs as [|h hs IH]; intros w; [apply extends_refl|].
  simpl. eapply extends_trans; [apply extends_record | apply IH].
Qed.

Lemma extends_bind_routes r rs w : extends w (bind_routes r rs w).
Proof.
  split_and!; simpl; [eauto | done | | eauto | eauto].
  intros r' s Hs. destruct (decide (r = r')) as [<-|Hne].
  - rewrite list_lookup_alter_eq, Hs. simpl. eexists. split; [done|].
    by apply prefix_app_r.
  - rewrite list_lookup_alter_ne by done. eauto.
Qed.

Lemma extends_register c ctrl w :
  routerControllerMap w !! Controller.name ctrl = None →
  extends w (createRouterForController c ctrl w).2.
Proof.
  intros Hfree. split_and!; simpl; [| done | | eauto | eauto].
  - intros id e He. rewrite lookup_insert_ne; [done|]. intros <-. congruence.
  - intros r s Hs. rewrite lookup_app_l by (by eapply lookup_lt_Some). eauto.
Qed.

Lemma extends_engine x srv w : extends w (set_server srv (set_app (app w ++ x) w)).
Proof.
  split_and!; simpl; [eauto | by apply prefix_app_r | eauto | eauto | eauto].
Qed.

Lemma extends_use x w : extends w (use x w).
Proof.
  split_and!; simpl; [eauto | by apply prefix_app_r | eauto | eauto | eauto].
Qed.

Lemma step_shape_extends w ds w' : step_shape w ds w' → extends w w'.
Proof.
  intros [|x srv _|id e c hs _ _|c ctrl hs Hc Hget|c ctrl hs Hc Hget].
  - apply extends_refl.
  - apply extends_engine.
  - eapply extends_trans; [apply extends_record_all | apply extends_bind_routes].
  - apply get_undefined in Hget as [Hfree _].
    eapply extends_trans; [by apply (extends_register c ctrl)|].
    eapply extends_trans; [apply extends_record_all|].
    eapply extends_trans; [apply extends_bind_routes | apply extends_use].
  - apply get_undefined in Hget as [Hfree _].
    eapply extends_trans; [by apply (extends_register c ctrl)|].
    eapply extends_trans; [apply extends_record_all | apply extends_bind_routes].
Qed.

Lemma run_all_extends {E : Engine} acts w w' :
  wf w → run_all acts w = Some w' → extends w w'.
Proof.
  apply (run_all_relation extends);
    [apply extends_refl | apply extends_trans | intros; by eapply step_shape_extends].
Qed.

Lemma extends_handlers w w' id e l :
  wf w' → extends w w' →
  routerControllerMap w !! id = Some e → handlers_of w id = Some l →
  ∃ l', handlers_of w' id = Some l' ∧ l `prefix_of` l'.
Proof.
  intros Hwf' (Hm & _ & _ & Ha & Hc) He Hl.
  unfold handlers_of in *. rewrite He in Hl. rewrite (Hm _ _ He). simpl in *.
  destruct (controllers w !! controller e) as [c|] eqn:Hcc; [|done]. simpl in Hl.
  destruct (Hc _ _ Hcc) as (c' & Hc' & _ & _ & Hh). rewrite Hc'. simpl.
  pose proof (wf_handler _ _ _ Hwf' Hc') as Hin. unfold handler_in in Hin.
  destruct (Controller.handler c) as [a|] eqn:Hha.
  - rewrite (Hh a eq_refl). by apply Ha.
  - simplify_eq. destruct (Controller.handler c') as [a'|].
    + destruct (lookup_lt_is_Some_2 _ _ Hin) as [l' Hl']. exists l'.
      split; [done | apply prefix_nil].
    + by exists [].
Qed.

Lemma wf_ready w id e :
  wf w → routerControllerMap w !! id = Some e →
  ∃ c stack l,
    controllers w !! controller e = Some c
    ∧ routers w !! router e = Some stack
    ∧ handlers_of w id = Some l
    ∧ ready id e (Controller.instance c) w.
Proof.
  intros Hwf He. destruct (wf_entry _ _ _ Hwf He) as [Hr Hc].
  destruct (lookup_lt_is_Some_2 _ _ Hc) as [c Hcc].
  destruct (lookup_lt_is_Some_2 _ _ Hr) as [stack Hstack].
  assert (ready id e (Controller.instance c) w) as Hready by (split_and!; eauto).
  destruct (ready_views _ _ _ _ Hready) as [[l Hl] _]. exists c, stack, l. eauto.
Qed.

(** *** One routing scope per controller *)

Lemma omap_not_mounted x :
  Forall (λ l, ∀ r, l ≠ Mounted r) x →
  omap (λ l, match l with Mounted r => Some r | _ => None end) x = [].
Proof.
  induction 1 as [|l x Hl _ IH]; [done|].
  destruct l as [| | |r| |]; simpl; try done. by destruct (Hl r).
Qed.

Lemma mounted_app w w' x :
  app w' = app w ++ x →
  mounted w' = mounted w ++ omap (λ l, match l with Mounted r => Some r | _ => None end) x.
Proof. intros Happ. unfold mounted. rewrite Happ. apply omap_app. Qed.

Lemma step_shape_own_routers w ds w' :
  wf w → own_routers w → step_shape w ds w' → own_routers w'.
Proof.
  intros Hwf (Hlen & Hm & Hinj)
    [|x srv Hx|id e c hs _ _|c ctrl hs Hc Hget|c ctrl hs Hc Hget].
  - done.
  - split_and!; [done | | done].
    rewrite (mounted_app w _ x) by done.
    by rewrite (omap_not_mounted _ Hx), app_nil_r.
  - destruct (record_all_fields e hs w) as (Happ & _ & Hmap & Hrt).
    split_and!.
    + cbn [routers bind_routes set_routers routerControllerMap].
      by rewrite length_alter, Hmap, Hrt.
    + rewrite (mounted_app w _ [])
        by (change (app (record_all e hs w) = app w ++ []); by rewrite Happ, app_nil_r).
      cbn [routers bind_routes set_routers]. by rewrite length_alter, Hrt, app_nil_r.
    + cbn [routerControllerMap bind_routes set_routers]. by rewrite Hmap.
  - set (n := length (routers w)) in *.
    set (e := {| router := n; controller := c |}) in *.
    set (w1 := (createRouterForController c ctrl w).2) in *.
    destruct (record_all_fields e hs w1) as (Happ & _ & Hmap & Hrt).
    apply get_undefined in Hget as [Hfree _].
    assert (length (routers w1) = S n) as Hn.
    { subst w1 n. cbn. rewrite length_app. simpl. lia. }
    split_and!.
    + cbn [routers routerControllerMap use set_app bind_routes set_routers].
      rewrite length_alter, Hmap, Hrt, Hn. subst w1. cbn.
      rewrite map_size_insert_None by done. lia.
    + rewrite (mounted_app w _ [Mounted n])
        by (change (app (record_all e hs w1) ++ [Mounted n] = app w ++ [Mounted n]);
            by rewrite Happ).
      cbn [routers use set_app bind_routes set_routers].
      rewrite length_alter, Hrt, Hn, seq_S. by apply sublist_app.
    + cbn [routerControllerMap use set_app bind_routes set_routers]. rewrite Hmap.
      subst w1. cbn [createRouterForController snd routerControllerMap
                       set_routerControllerMap set_routers].
      intros id1 id2 e1 e2 H1 H2 Heq.
      apply lookup_insert_Some in H1 as [[<- <-]|[Hne1 H1]];
        apply lookup_insert_Some in H2 as [[<- <-]|[Hne2 H2]]; try done.
      * destruct (wf_entry _ _ _ Hwf H2) as [Hlt _]. simpl in Heq. subst n. lia.
      * destruct (wf_entry _ _ _ Hwf H1) as [Hlt _]. simpl in Heq. subst n. lia.
      * by eapply Hinj.
  - set (n := length (routers w)) in *.
    set (e := {| router := n; controller := c |}) in *.
    set (w1 := (createRouterForController c ctrl w).2) in *.
    destruct (record_all_fields e hs w1) as (Happ & _ & Hmap & Hrt).
    apply get_undefined in Hget as [Hfree _].
    assert (length (routers w1) = S n) as Hn.
    { subst w1 n. cbn. rewrite length_app. simpl. lia. }
    split_and!.
    + cbn [routers routerControllerMap bind_routes set_routers].
      rewrite length_alter, Hmap, Hrt, Hn. subst w1. cbn.
      rewrite map_size_insert_None by done. lia.
    + rewrite (mounted_app w _ [])
        by (change (app (record_all e hs w1) = app w ++ []); by rewrite Happ, app_nil_r).
      cbn [routers bind_routes set_routers].
      rewrite length_alter, Hrt, Hn, seq_S, app_nil_r. by apply sublist_inserts_r.
    + cbn [routerControllerMap bind_routes set_routers]. rewrite Hmap.
      subst w1. cbn [createRouterForController snd routerControllerMap
                       set_routerControllerMap set_routers].
      intros id1 id2 e1 e2 H1 H2 Heq.
      apply lookup_insert_Some in H1 as [[<- <-]|[Hne1 H1]];
        apply lookup_insert_Some in H2 as [[<- <-]|[Hne2 H2]]; try done.
      * destruct (wf_entry _ _ _ Hwf H2) as [Hlt _]. simpl in Heq. subst n. lia.
      * destruct (wf_entry _ _ _ Hwf H1) as [Hlt _]. simpl in Heq. subst n. lia.
      * by eapply Hinj.
Qed.

Lemma constructor_own_routers cs arrs : own_routers (constructor cs arrs).
Proof. split_and!; [done | done |]. intros id1 id2 e1 e2 H1. by simpl in H1. Qed.

(** *** Names in the registry *)

Lemma step_shape_entry w ds w' id e :
  step_shape w ds w' → routerControllerMap w' !! id = Some e →
  routerControllerMap w !! id = Some e
  ∨ ∃ ctrl, controllers w !! controller e = Some ctrl
          ∧ Controller.name ctrl = id
          ∧ get (routerControllerMap w) id = Undefined.
Proof.
  intros [|x srv _|id0 e0 c hs _ _|c ctrl hs Hc Hget|c ctrl hs Hc Hget] He.
  - by left.
  - by left.
  - left. destruct (record_all_fields e0 hs w) as (_ & _ & Hmap & _).
    cbn [routerControllerMap bind_routes set_routers] in He. by rewrite Hmap in He.
  - set (e1 := {| router := length (routers w); controller := c |}) in *.
    destruct (record_all_fields e1 hs (createRouterForController c ctrl w).2)
      as (_ & _ & Hmap & _).
    cbn [routerControllerMap use set_app bind_routes set_routers] in He.
    rewrite Hmap in He.
    cbn [createRouterForController snd routerControllerMap set_routerControllerMap
           set_routers] in He.
    apply lookup_insert_Some in He as [[<- <-]|[_ He]]; [right | by left].
    exists ctrl. by split_and!.
  - set (e1 := {| router := length (routers w); controller := c |}) in *.
    destruct (record_all_fields e1 hs (createRouterForController c ctrl w).2)
      as (_ & _ & Hmap & _).
    cbn [routerControllerMap bind_routes set_routers] in He.
    rewrite Hmap in He.
    cbn [createRouterForController snd routerControllerMap set_routerControllerMap
           set_routers] in He.
    apply lookup_insert_Some in He as [[<- <-]|[_ He]]; [right | by left].
    exists ctrl. by split_and!.
Qed.

Lemma step_shape_names w ds w' : wf w → names_ok w → step_shape w ds w' → names_ok w'.
Proof.
  intros Hwf Hok Hshape id e He.
  destruct (step_shape_extends _ _ _ Hshape) as (_ & _ & _ & _ & Hcs).
  destruct (step_shape_entry _ _ _ _ _ Hshape He) as [Hold|(ctrl & Hc & Hname & Hget)].
  - destruct (Hok _ _ Hold) as (Hnin & c & Hc & Hname). split; [done|].
    destruct (Hcs _ _ Hc) as (c' & Hc' & Hn & _). exists c'. split; [done | congruence].
  - apply get_undefined in Hget as [_ Hnin]. split; [done|].
    destruct (Hcs _ _ Hc) as (c' & Hc' & Hn & _). exists c'. split; [done | congruence].
Qed.

(** *** Handler lists without a repeated object *)

Lemma handlers_of_register c ctrl w id :
  is_Some (routerControllerMap w !! id) →
  routerControllerMap w !! Controller.name ctrl = None →
  handlers_of (createRouterForController c ctrl w).2 id = handlers_of w id.
Proof.
  intros [e He] Hfree. unfold handlers_of. simpl.
  rewrite lookup_insert_ne; [done|]. intros <-. congruence.
Qed.




(** *** Interrupted calls *)

Lemma refused_Some {E : Engine} hs p :
  refused hs = Some p →
  ∃ ds h rest,
    hs = ds ++ h :: rest ∧ accepted hs = ds ∧ routable ds
    ∧ route_ok (ControllerHandler.path (obj h)) = false
    ∧ p = ControllerHandler.path (obj h).
Proof.
  induction hs as [|h hs IH]; simpl; [done|].
  destruct (route_ok (ControllerHandler.path (obj h))) eqn:Hh.
  - intros (ds & h' & rest & Hhs & Hacc & Hds & Hh' & Hp)%IH.
    exists (h :: ds), h', rest.
    split_and!; [by rewrite Hhs | by rewrite Hacc | by constructor | done | done].
  - intros [= <-]. exists [], h, hs. split_and!; [done | done | constructor | done | done].
Qed.

(** The declarations a controller object brings to its registration are in
    the array they are read from: recording any of them changes nothing. *)
Lemma record_all_predeclared c ctrl ds w :
  wf w → controllers w !! c = Some ctrl → ds `prefix_of` predeclared w ctrl →
  record_all {| router := length (routers w); controller := c |} ds
    (createRouterForController c ctrl w).2
  = (createRouterForController c ctrl w).2.
Proof.
  intros Hwf Hc Hds. unfold predeclared in Hds.
  destruct (Controller.handler ctrl) as [a|] eqn:Hh.
  - pose proof (wf_handler _ _ _ Hwf Hc) as Hin. unfold handler_in in Hin. rewrite Hh in Hin.
    destruct (lookup_lt_is_Some_2 _ _ Hin) as [l Hl]. rewrite Hl in Hds. simpl in Hds.
    apply (record_all_members _ ctrl a l); [done | done | done |].
    intros h Hin'. apply list_elem_of_fmap. exists h. split; [done|].
    destruct Hds as [k ->]. apply elem_of_app. by left.
  - apply prefix_nil_inv in Hds as ->. done.
Qed.

(** The state in which a registration leaves [addControllerHandlers]: the
    entry filed, and the routes of the declarations attached so far in the
    new router. *)
Lemma register_state c ctrl ds w :
  wf w → controllers w !! c = Some ctrl → ds `prefix_of` predeclared w ctrl →
  bind_routes (length (routers w)) (route_of (Controller.instance ctrl) <$> ds)
    (record_all {| router := length (routers w); controller := c |} ds
       (createRouterForController c ctrl w).2)
  = {| app := app w; server := server w;
       routerControllerMap :=
         <[Controller.name ctrl := {| router := length (routers w); controller := c |}]>
           (routerControllerMap w);
       routers := routers w ++ [route_of (Controller.instance ctrl) <$> ds];
       controllers := controllers w; arrays := arrays w |}.
Proof.
  intros Hwf Hc Hds. rewrite (record_all_predeclared _ _ _ _ Hwf Hc Hds).
  unfold bind_routes, createRouterForController, set_routers, set_routerControllerMap.
  cbn [snd app server routerControllerMap routers controllers arrays].
  f_equal. rewrite alter_app_r_alt by done. by rewrite Nat.sub_diag.
Qed.

(** ** The claims *)

(** C1. Registering a controller whose name is already in the registry throws
    the duplicate-controller error and leaves the whole state as it was. *)
Theorem addController_duplicate {E : Engine} w c ctrl e :
  controllers w !! c = Some ctrl →
  routerControllerMap w !! Controller.name ctrl = Some e →
  addController c w = Throw DuplicateControllerError w.
Proof.
  intros Hc He. unfold addController. by rewrite Hc, (get_own _ _ _ He).
Qed.

Lemma addController_duplicate_witness :
  addController (E := picky) 0 stub_registered
  = Throw DuplicateControllerError stub_registered.
Proof.
  apply (addController_duplicate stub_registered 0 Stub (mkEntry 0 0)).
  - reflexivity.
  - vm_compute. reflexivity.
Defined.





(** C3 fails for the names every object inherits: "toString" is not
    registered in a new server, yet the guard finds the inherited function
    under that key, and the call fails with a [TypeError] on reading [instance]
    instead of the not-found error (the state is still unchanged). *)
Theorem addControllerHandlers_inherited_name {E : Engine} :
  routerControllerMap fresh !! "toString" = None
  ∧ addControllerHandlers "toString" (One get_test) fresh
    = Throw (undefined_read "instance") fresh
  ∧ addControllerHandlers "toString" (Many 0) fresh
    = Throw (undefined_read "instance") fresh
  ∧ undefined_read "instance" ≠ ControllerNotFoundError.
Proof.
  split_and!; [vm_compute; reflexivity .. | discriminate].
Qed.

(** C4, as stated, fails: a method that resolves to the number 404 has that
    number taken as the status by express 4, and the message of the status is
    what the client gets as body; the reply neither has a success status nor
    carries the resolved value. *)
Lemma numeric_value_becomes_the_status :
  ∃ run,
    serve express4_send String.eqb numbering 0 GET "/test" () fresh_reply test_attached
    = (test_attached, Some run)
    ∧ passed run = [Number 404]
    ∧ response run = {| statusCode := 404; body := Some (StatusMessage 404) |}
    ∧ ¬ success_with (Number 404) (response run).
Proof.
  eexists. split; [vm_compute; reflexivity|]. simpl.
  split; [done|]. split; [done|].
  intros [[_ Hstatus] _]. simpl in Hstatus. lia.
Qed.

(** C4, amended: after handlers are attached, the routing scope of the
    controller holds, for each declaration, a route on its verb and path whose
    handler calls the method named by the declaration on the controller's
    instance with the request and, once the result resolves (returned directly
    or through a promise), passes the resolved value to the engine's
    [res.send] as its one argument.  The handler sets no status and touches the
    response in no other way: the response afterwards is what [res.send] made
    of it, and the handler's promise fulfils unless [res.send] throws. *)
Theorem shim_passes_resolved_value_to_send {Request Value Exn Response : Type}
    {E : Engine} w id e hs :
  wf w → routerControllerMap w !! id = Some e → valid w hs → routable (declared w hs) →
  ∃ w' c stack,
    controllers w !! controller e = Some c
    ∧ addControllerHandlers id hs w = Ok w'
    ∧ routes_of w' id = Some stack
    ∧ ∀ h, h ∈ declared w hs →
        ∃ r, r ∈ stack
          ∧ verb r = ControllerHandler.method (obj h)
          ∧ pattern r = ControllerHandler.path (obj h)
          ∧ ∀ (send : Send Value Exn Response) (ms : Methods Request Value Exn) m req res v,
              ms (Controller.instance c) (ControllerHandler.handler (obj h)) = Some m →
              resolved (m req) = Some v →
              calls (run_shim send ms (shim r) req res)
              = [(Controller.instance c, ControllerHandler.handler (obj h), req)]
              ∧ passed (run_shim send ms (shim r) req res) = [v]
              ∧ match send v res with
                | Sent res' =>
                  response (run_shim send ms (shim r) req res) = res'
                  ∧ result (run_shim send ms (shim r) req res) = Done
                | SendThrew err res' =>
                  response (run_shim send ms (shim r) req res) = res'
                  ∧ result (run_shim send ms (shim r) req res) = Failed (Unsent err)
                end.
Proof.
  intros Hwf He Hv Hok.
  destruct (addControllerHandlers_eq id e hs w Hwf He Hv) as (c & Hc & Heq).
  rewrite (proj2 (refused_None _) Hok), (accepted_routable _ Hok) in Heq. simpl in Heq.
  assert (ready id e (Controller.instance c) w) as Hr by (split_and!; eauto).
  destruct (ready_views _ _ _ _ Hr) as [_ [stack Hstack]].
  pose proof (record_all_ready _ _ _ (declared w hs) _ Hr) as (_ & He' & _).
  eexists _, c, _. split; [done|]. split; [exact Heq|]. split.
  { rewrite (routes_of_bind_routes _ _ _ _ He'), routes_of_record_all, Hstack. done. }
  intros h Hh. exists (route_of (Controller.instance c) h). split_and!; [| done | done |].
  - apply elem_of_app. right. apply list_elem_of_fmap. by exists h.
  - intros send ms m req res v Hm Hres. unfold run_shim. simpl. rewrite Hm.
    destruct (m req) as [[v'|[v'|e'|]]|e']; simpl in Hres; simplify_eq;
      by destruct (send v res).
Qed.

Lemma shim_passes_resolved_value_to_send_witness :
  ∃ w' stack r,
    addControllerHandlers (E := picky) "test" (One get_test) test_registered = Ok w'
    ∧ routes_of w' "test" = Some stack
    ∧ r ∈ stack ∧ verb r = GET ∧ pattern r = "/test"
    ∧ passed (run_shim express4_send answering (shim r) () fresh_reply) = [Text "pong"]
    ∧ response (run_shim express4_send answering (shim r) () fresh_reply)
      = {| statusCode := 200; body := Some (Payload (Text "pong")) |}.
Proof.
  destruct (@shim_passes_resolved_value_to_send unit JsValue string Reply picky
              test_registered "test" (mkEntry 0 1) (One get_test))
    as (w' & c & stack & Hc & Hok & Hstack & Hall).
  - by_evaluation.
  - vm_compute. reflexivity.
  - exact I.
  - by_evaluation.
  - assert (c = Test) as -> by (vm_compute in Hc; injection Hc as <-; reflexivity).
    destruct (Hall get_test) as (r & Hin & Hverb & Hpat & Hrun); [by left|].
    exists w', stack, r. split; [exact Hok|]. split; [exact Hstack|]. split; [exact Hin|].
    split; [exact Hverb|]. split; [exact Hpat|].
    destruct (Hrun express4_send answering
                (λ _, Returns (Thenable (Fulfilled (Text "pong")))) () fresh_reply
                (Text "pong")) as (_ & Hpassed & Hres & _); [reflexivity | reflexivity |].
    split; [exact Hpassed | exact Hres].
Defined.

(** C6. Registering a controller that declares no handler (no [handler]
    field, or an empty array) under a name the registry does not hold (as in a
    new server, for a name that no object inherits) succeeds; afterwards the
    registry has an entry under that name with a router of its own, without
    routes, and an empty handler list (the controller object is untouched), and
    that router is the last thing mounted on the application. *)
Theorem addController_without_handlers {E : Engine} w c ctrl :
  wf w → controllers w !! c = Some ctrl →
  get (routerControllerMap w) (Controller.name ctrl) = Undefined →
  match Controller.handler ctrl with
  | Some a => arrays w !! a = Some []
  | None => True
  end →
  ∃ w',
    addController c w = Ok w'
    ∧ routerControllerMap w' !! Controller.name ctrl
      = Some {| router := length (routers w); controller := c |}
    ∧ handlers_of w' (Controller.name ctrl) = Some []
    ∧ routes_of w' (Controller.name ctrl) = Some []
    ∧ app w' = app w ++ [Mounted (length (routers w))]
    ∧ controllers w' = controllers w
    ∧ arrays w' = arrays w.
Proof.
  intros Hwf Hc Hget Hnone.
  pose proof (addController_eq w c ctrl Hwf Hc Hget) as Heq. cbv zeta in Heq.
  assert (predeclared w ctrl = []) as Hhs.
  { unfold predeclared. destruct (Controller.handler ctrl); [by rewrite Hnone | done]. }
  rewrite Hhs in Heq. simpl in Heq. rewrite bind_routes_nil in Heq.
  eexists. split; [exact Heq|].
  unfold handlers_of, routes_of. simpl. rewrite lookup_insert_eq. simpl.
  rewrite Hc. simpl. split_and!; [done | | | done | done | done].
  - by destruct (Controller.handler ctrl).
  - rewrite lookup_app_r by done. by rewrite Nat.sub_diag.
Qed.

Lemma addController_without_handlers_witness :
  ∃ w',
    addController (E := picky) 0 fresh = Ok w'
    ∧ routerControllerMap w' !! "Stub" = Some {| router := 0; controller := 0 |}
    ∧ handlers_of w' "Stub" = Some []
    ∧ routes_of w' "Stub" = Some []
    ∧ app w' = [JsonParser; Logger "tiny"; Mounted 0]
    ∧ controllers w' = controllers fresh
    ∧ arrays w' = arrays fresh.
Proof.
  apply (addController_without_handlers (E := picky) fresh 0 Stub).
  - by_evaluation.
  - reflexivity.
  - vm_compute. reflexivity.
  - exact I.
Defined.

(** C7. [close] never throws.  On a server that never listened it changes
    nothing; otherwise it closes the listening server; and a second [close]
    returns as well and leaves the state the first one produced. *)
Theorem close_idempotent w :
  ∃ w',
    close w = Ok w'
    ∧ close w' = Ok w'
    ∧ match server w with
      | None => w' = w
      | Some s => server w' = Some (HttpServer_close s)
      end.
Proof.
  unfold close. destruct w as [a [s|] m rs cs arrs]; simpl.
  - eexists. split; [done|]. simpl. by split.
  - eexists. split; [done|]. simpl. by split.
Qed.

(** C8, as stated, fails for a declaration whose path the engine refuses:
    on the path "?" the call throws what the engine throws, and no route
    is bound. *)
Lemma refused_path_binds_nothing :
  routes_of test_registered "test" = Some []
  ∧ addControllerHandlers (E := picky) "test" (One get_question) test_registered
    = Throw (EngineError "?") test_registered.
Proof. split; vm_compute; reflexivity. Qed.

(** C8, amended: on a registered controller, a call of [addControllerHandlers]
    whose declarations are all on paths the engine accepts appends one route
    per declaration, on its verb and path and to its method on the
    controller's instance, whether or not the declaration is already recorded:
    attaching the same declaration object twice leaves two bindings of its
    route in the scope, while the handler list after the second call is the
    list after the first, in which the object was appended only if it was not
    there. *)
Theorem attach_twice_rebinds {E : Engine} w id e h stack l :
  wf w → routerControllerMap w !! id = Some e →
  routes_of w id = Some stack → handlers_of w id = Some l →
  route_ok (ControllerHandler.path (obj h)) = true →
  ∃ c w1 w2,
    let bound h :=
      {| verb := ControllerHandler.method (obj h);
         pattern := ControllerHandler.path (obj h);
         shim := {| target := Controller.instance c;
                    methodName := ControllerHandler.handler (obj h) |} |} in
    controllers w !! controller e = Some c
    ∧ (∀ hs, valid w hs → routable (declared w hs) →
         ∃ w', addControllerHandlers id hs w = Ok w'
             ∧ routes_of w' id = Some (stack ++ (bound <$> declared w hs)))
    ∧ addControllerHandlers id (One h) w = Ok w1
    ∧ addControllerHandlers id (One h) w1 = Ok w2
    ∧ routes_of w1 id = Some (stack ++ [bound h])
    ∧ routes_of w2 id = Some (stack ++ [bound h; bound h])
    ∧ handlers_of w1 id = Some (if bool_decide (addr h ∈ addr <$> l) then l else l ++ [h])
    ∧ handlers_of w2 id = handlers_of w1 id.
Proof.
  intros Hwf He Hstack Hl Hok.
  assert (routable [h]) as Hoks by (by constructor).
  destruct (addControllerHandlers_eq id e (One h) w Hwf He I) as (c & Hc & H1).
  simpl in H1. rewrite Hok in H1. simpl in H1.
  assert (ready id e (Controller.instance c) w) as Hr by (split_and!; eauto).
  assert (∀ hs, routes_of (bind_routes (router e) (route_of (Controller.instance c) <$> hs)
                             (record_all e hs w)) id
                = Some (stack ++ (route_of (Controller.instance c) <$> hs))) as Hroutes.
  { intros hs. pose proof (record_all_ready _ _ _ hs _ Hr) as (_ & He' & _).
    by rewrite (routes_of_bind_routes _ _ _ _ He'), routes_of_record_all, Hstack. }
  set (w1 := bind_routes (router e) [route_of (Controller.instance c) h] (record e h w)) in *.
  assert (ready id e (Controller.instance c) w1) as Hr1
    by (by apply bind_routes_ready, record_ready).
  pose proof Hr1 as (Hwf1 & He1 & c1 & Hc1 & Hi1).
  destruct (addControllerHandlers_eq id e (One h) w1 Hwf1 He1 I) as (c' & Hc' & H2).
  assert (c' = c1) as -> by congruence. rewrite Hi1 in H2.
  simpl in H2. rewrite Hok in H2. simpl in H2.
  assert (handlers_of w1 id = Some (push_new l h)) as Hl1.
  { subst w1. rewrite handlers_of_bind_routes. by eapply handlers_of_record. }
  exists c. eexists _, _. cbv zeta. split; [done|]. split.
  { intros hs Hhs Hrt.
    destruct (addControllerHandlers_eq id e hs w Hwf He Hhs) as (c0 & Hc0 & ->).
    assert (c0 = c) as -> by congruence.
    rewrite (proj2 (refused_None _) Hrt), (accepted_routable _ Hrt). simpl.
    eexists. split; [done|]. by rewrite Hroutes. }
  assert (routes_of w1 id = Some (stack ++ [route_of (Controller.instance c) h])) as Hw1
    by exact (Hroutes [h]).
  split; [exact H1|]. split; [exact H2|]. split_and!.
  - exact Hw1.
  - pose proof (record_ready _ _ _ h _ Hr1) as (_ & He' & _).
    rewrite (routes_of_bind_routes _ _ _ _ He').
    change (record e h w1) with (record_all e [h] w1). rewrite routes_of_record_all.
    rewrite Hw1. simpl. by rewrite <-(assoc_L (++)).
  - done.
  - rewrite handlers_of_bind_routes.
    rewrite (handlers_of_record _ _ _ h _ _ Hr1 Hl1). by rewrite push_new_idem, Hl1.
Qed.

Lemma attach_twice_rebinds_witness :
  ∃ w1 w2,
    addControllerHandlers (E := picky) "test" (One get_test) test_registered = Ok w1
    ∧ addControllerHandlers (E := picky) "test" (One get_test) w1 = Ok w2
    ∧ routes_of w2 "test"
      = Some [ {| verb := GET; pattern := "/test";
                  shim := {| target := 1; methodName := "test" |} |};
               {| verb := GET; pattern := "/test";
                  shim := {| target := 1; methodName := "test" |} |} ]
    ∧ handlers_of w2 "test" = Some [get_test].
Proof.
  destruct (attach_twice_rebinds (E := picky) test_registered "test" (mkEntry 0 1)
              get_test [] [])
    as (c & w1 & w2 & Hc & _ & H1 & H2 & _ & Hroutes & Hl1 & Hl2).
  - by_evaluation.
  - vm_compute. reflexivity.
  - vm_compute. reflexivity.
  - vm_compute. reflexivity.
  - reflexivity.
  - assert (c = Test) as -> by (vm_compute in Hc; injection Hc as <-; reflexivity).
    exists w1, w2. split; [exact H1|]. split; [exact H2|]. split; [exact Hroutes|].
    rewrite Hl2. exact Hl1.
Defined.

(** C9, as stated, fails for a configuration whose asset directory is the
    empty string: [express.static] throws, and the constructor with it, before
    anything is mounted. *)
Lemma empty_asset_directory_throws :
  BasicService.constructor (E := picky)
    (Some {| ServiceConfig.port := None; ServiceConfig.docsPath := None;
             ServiceConfig.swaggerLocation := Some ""; ServiceConfig.swagger := None |})
    fresh
  = Throw (TypeError "root path required") fresh.
Proof. vm_compute. reflexivity. Qed.

(** C9, amended: with [swagger: false] the constructor returns without
    touching the server.  In every other case (no configuration, [swagger]
    absent or true), when the asset directory is not the empty string and the
    engine accepts the documentation path, it returns having appended to the
    application, and changed nothing else: the static assets of
    [swaggerLocation], "public" when absent, and then the documentation UI at
    [docsPath], "/docs" when absent, reading its descriptor from
    "/swagger.json". *)
Theorem constructor_swagger {E : Engine} cfg w :
  (cfg ≫= ServiceConfig.swagger = Some false → BasicService.constructor cfg w = Ok w)
  ∧ (cfg ≫= ServiceConfig.swagger ≠ Some false →
     default "public" (cfg ≫= ServiceConfig.swaggerLocation) ≠ "" →
     mount_ok (default "/docs" (cfg ≫= ServiceConfig.docsPath)) = true →
     ∃ w',
       BasicService.constructor cfg w = Ok w'
       ∧ app w' = app w ++ [ Static (default "public" (cfg ≫= ServiceConfig.swaggerLocation));
                             SwaggerUi (default "/docs" (cfg ≫= ServiceConfig.docsPath))
                                       "/swagger.json" ]
       ∧ server w' = server w
       ∧ routerControllerMap w' = routerControllerMap w
       ∧ routers w' = routers w
       ∧ controllers w' = controllers w
       ∧ arrays w' = arrays w).
Proof.
  unfold BasicService.constructor. split.
  - by intros ->.
  - intros Hswagger Hroot Hmount.
    assert (prepareSwagger (cfg ≫= ServiceConfig.docsPath)
              (cfg ≫= ServiceConfig.swaggerLocation) w
            = Ok (use (SwaggerUi (default "/docs" (cfg ≫= ServiceConfig.docsPath))
                         "/swagger.json")
                    (use (Static (default "public" (cfg ≫= ServiceConfig.swaggerLocation)))
                       w))) as Hprep.
    { unfold prepareSwagger, DEFAULT_SWAGGER_PATH, DEFAULT_SWAGGER_LOCATION.
      rewrite bool_decide_eq_false_2 by done. by rewrite Hmount. }
    eexists. split.
    + destruct (cfg ≫= ServiceConfig.swagger) as [[|]|]; [exact Hprep | done | exact Hprep].
    + simpl. by rewrite <-(assoc_L (++)).
Qed.

Lemma constructor_swagger_witness :
  ∃ w',
    BasicService.constructor (E := picky) None fresh = Ok w'
    ∧ app w' = [JsonParser; Logger "tiny"; Static "public"; SwaggerUi "/docs" "/swagger.json"].
Proof.
  destruct (constructor_swagger (E := picky) None fresh) as [_ Hon].
  destruct Hon as (w' & Hok & Happ & _); [done | done | reflexivity |].
  exists w'. split; [exact Hok | exact Happ].
Defined.

(** C10. A registration under a free name of a controller whose [handler]
    field already is an array returns exactly when the engine accepts the
    paths of all its elements; when it returns, it has bound one route per
    element of the array, in order, on the element's verb and path and to its
    method on the controller's instance, in the new routing scope, and has left
    the array, every other array and every controller object as they were:
    each element is found in the array it is read from, so nothing is
    pushed. *)
Theorem addController_predeclared {E : Engine} w c ctrl a l :
  wf w → controllers w !! c = Some ctrl →
  get (routerControllerMap w) (Controller.name ctrl) = Undefined →
  Controller.handler ctrl = Some a → arrays w !! a = Some l →
  ((∃ w', addController c w = Ok w') ↔ routable l)
  ∧ ∀ w', addController c w = Ok w' →
      routes_of w' (Controller.name ctrl)
      = Some ((λ h, {| verb := ControllerHandler.method (obj h);
                       pattern := ControllerHandler.path (obj h);
                       shim := {| target := Controller.instance ctrl;
                                  methodName := ControllerHandler.handler (obj h) |} |})
              <$> l)
      ∧ handlers_of w' (Controller.name ctrl) = Some l
      ∧ arrays w' = arrays w
      ∧ controllers w' = controllers w.
Proof.
  intros Hwf Hc Hget Hh Ha.
  pose proof (addController_eq w c ctrl Hwf Hc Hget) as Heq. cbv zeta in Heq.
  unfold predeclared in Heq. rewrite Hh, Ha in Heq. simpl (default _ _) in Heq.
  set (e := {| router := length (routers w); controller := c |}) in *.
  set (w1 := (createRouterForController c ctrl w).2) in *.
  rewrite Heq. clear Heq. split.
  - destruct (refused l) as [p|] eqn:Hp; simpl.
    + split; [by intros [? ?] | intros Hl%refused_None; congruence].
    + apply refused_None in Hp. split; [done | eauto].
  - intros w' Hw'. destruct (refused l) as [p|] eqn:Hp; [done|].
    apply refused_None in Hp. rewrite (accepted_routable _ Hp) in Hw'.
    simpl in Hw'. injection Hw' as <-.
    assert (record_all e l w1 = w1) as ->.
    { apply (record_all_members e ctrl a l); [done | done | done |].
      intros h Hin. apply list_elem_of_fmap. by exists h. }
    unfold handlers_of, routes_of. simpl. rewrite lookup_insert_eq. simpl.
    rewrite Hc. simpl. rewrite Hh. split_and!; [| done | done | done].
    rewrite list_lookup_alter_eq, lookup_app_r by done. by rewrite Nat.sub_diag.
Qed.

Lemma addController_predeclared_witness :
  ∃ w',
    addController (E := picky) 2 fresh = Ok w'
    ∧ routes_of w' "declared"
      = Some [ {| verb := GET; pattern := "/test";
                  shim := {| target := 2; methodName := "test" |} |} ]
    ∧ handlers_of w' "declared" = Some [get_test]
    ∧ arrays w' = arrays fresh
    ∧ controllers w' = controllers fresh.
Proof.
  destruct (addController_predeclared (E := picky) fresh 2 Declared 0 [get_test])
    as [Hiff Hafter].
  - by_evaluation.
  - reflexivity.
  - vm_compute. reflexivity.
  - reflexivity.
  - reflexivity.
  - destruct (proj2 Hiff) as [w' Hw']; [by_evaluation|].
    exists w'. split; [exact Hw' | exact (Hafter w' Hw')].
Defined.

(** ** Beyond the claims: sequences of calls *)

(** X1. Whatever client code goes on to do with the server (any sequence of
    calls on it and of constructions and starts of a [BasicService]), a
    registered controller stays registered under the same entry, its routes
    and its recorded handlers are only added to at the end, and so is the
    application's middleware stack: nothing is removed, replaced or
    reordered. *)
Theorem registered_stays_registered {E : Engine} acts w w' id e stack l :
  wf w → run_all acts w = Some w' →
  routerControllerMap w !! id = Some e →
  routes_of w id = Some stack → handlers_of w id = Some l →
  routerControllerMap w' !! id = Some e
  ∧ (∃ stack', routes_of w' id = Some stack' ∧ stack `prefix_of` stack')
  ∧ (∃ l', handlers_of w' id = Some l' ∧ l `prefix_of` l')
  ∧ app w `prefix_of` app w'.
Proof.
  intros Hwf Hrun He Hstack Hl.
  pose proof (run_all_wf _ _ _ Hwf Hrun) as Hwf'.
  pose proof (run_all_extends _ _ _ Hwf Hrun) as Hext.
  pose proof (extends_handlers _ _ _ _ _ Hwf' Hext He Hl) as Hl'.
  destruct Hext as (Hm & Happ & Hr & _).
  pose proof (Hm _ _ He) as He'.
  unfold routes_of in *. rewrite He in Hstack. rewrite He'.
  simpl in *. split_and!; [done | by apply Hr | done | done].
Qed.

Lemma registered_stays_registered_witness :
  routerControllerMap later !! "test" = Some (mkEntry 0 1)
  ∧ (∃ stack', routes_of later "test" = Some stack'
             ∧ [route_of 1 get_test] `prefix_of` stack')
  ∧ (∃ l', handlers_of later "test" = Some l' ∧ [get_test] `prefix_of` l')
  ∧ app test_attached `prefix_of` app later.
Proof.
  apply (registered_stays_registered (E := picky) later_calls test_attached later "test").
  - by_evaluation.
  - vm_compute. reflexivity.
  - vm_compute. reflexivity.
  - vm_compute. reflexivity.
  - vm_compute. reflexivity.
Defined.

(** *** One routing scope per controller *)

(** X2. In every state reached from a new server, every registered
    controller has in the store a routing scope of its own: there are as many
    routers as entries, no router is shared by two names, and the application
    has routers of the store mounted, each at most once and in the order they
    were created.  A registration that returns has made one more router and
    mounted it, last on the application.  (A router need not be mounted: a
    registration that the engine interrupts leaves its entry filed and its
    router unmounted.) *)
Theorem every_controller_owns_a_router {E : Engine} acts cs arrs w :
  Forall (handler_in (length arrs)) cs →
  run_all acts (constructor cs arrs) = Some w →
  length (routers w) = size (routerControllerMap w)
  ∧ (∀ id e, routerControllerMap w !! id = Some e → router e < length (routers w))
  ∧ (∀ id1 id2 e1 e2,
       routerControllerMap w !! id1 = Some e1 →
       routerControllerMap w !! id2 = Some e2 →
       router e1 = router e2 → id1 = id2)
  ∧ mounted w `sublist_of` seq 0 (length (routers w))
  ∧ NoDup (mounted w)
  ∧ (∀ r, r ∈ mounted w → r < length (routers w))
  ∧ ∀ c w', addController c w = Ok w' →
      length (routers w') = S (length (routers w))
      ∧ app w' = app w ++ [Mounted (length (routers w))]
      ∧ mounted w' = mounted w ++ [length (routers w)].
Proof.
  intros Hcs Hrun.
  destruct (run_all_keeps own_routers step_shape_own_routers acts _ _
              (constructor_wf _ _ Hcs) (constructor_own_routers _ _) Hrun)
    as [Hwf (Hsize & Hsub & Hinj)].
  split_and!; [done | | done | done | | |].
  - intros id e He. by destruct (wf_entry _ _ _ Hwf He).
  - eapply sublist_NoDup; [apply NoDup_seq | exact Hsub].
  - intros r Hr. pose proof (elem_of_sublist _ _ _ Hr Hsub) as Hin.
    apply elem_of_seq in Hin. lia.
  - intros c w' Hok.
    destruct (controllers w !! c) as [ctrl|] eqn:Hc;
      [|unfold addController in Hok; by rewrite Hc in Hok].
    destruct (get (routerControllerMap w) (Controller.name ctrl)) eqn:Hget;
      [unfold addController in Hok; by rewrite Hc, Hget in Hok ..|].
    rewrite (addController_eq _ _ _ Hwf Hc Hget) in Hok.
    rewrite (register_state _ _ _ _ Hwf Hc (accepted_prefix _)) in Hok.
    destruct (refused (predeclared w ctrl)); [done|].
    simpl in Hok. injection Hok as <-.
    assert (app (use (Mounted (length (routers w)))
                   {| app := app w; server := server w;
                      routerControllerMap :=
                        <[Controller.name ctrl :=
                            {| router := length (routers w); controller := c |}]>
                          (routerControllerMap w);
                      routers := routers w
                                 ++ [route_of (Controller.instance ctrl)
                                     <$> accepted (predeclared w ctrl)];
                      controllers := controllers w; arrays := arrays w |})
            = app w ++ [Mounted (length (routers w))]) as Happ by done.
    split_and!.
    + cbn [routers use set_app]. rewrite length_app. simpl. lia.
    + exact Happ.
    + by rewrite (mounted_app w _ _ Happ).
Qed.

Lemma every_controller_owns_a_router_witness :
  length (routers in_service) = 3 ∧ mounted in_service = [0; 1; 2]
  ∧ NoDup (mounted in_service).
Proof.
  destruct (every_controller_owns_a_router (E := picky) session [Stub; Test; Declared]
              [[get_test]] in_service) as (Hsize & _ & _ & _ & Hnodup & _).
  - by_evaluation.
  - vm_compute. reflexivity.
  - split; [rewrite Hsize; vm_compute; reflexivity|].
    split; [vm_compute; reflexivity | exact Hnodup].
Defined.

(** X3. In a state reached from a new server, attaching handlers to one
    controller binds routes in that controller's router only, whether the call
    returns (as it does when the engine accepts every path) or the engine
    interrupts it: every other router of the store, and so the routes of
    every other registered controller, is left as it was. *)
Theorem attach_touches_one_scope {E : Engine} acts cs arrs w id id' e e' hs :
  Forall (handler_in (length arrs)) cs →
  run_all acts (constructor cs arrs) = Some w →
  routerControllerMap w !! id = Some e →
  routerControllerMap w !! id' = Some e' →
  id ≠ id' → valid w hs →
  ∃ w',
    final (addControllerHandlers id hs w) = Some w'
    ∧ (routable (declared w hs) → addControllerHandlers id hs w = Ok w')
    ∧ routes_of w' id' = routes_of w id'
    ∧ ∀ r, r ≠ router e → routers w' !! r = routers w !! r.
Proof.
  intros Hcs Hrun He He' Hne Hv.
  destruct (run_all_keeps own_routers step_shape_own_routers acts _ _
              (constructor_wf _ _ Hcs) (constructor_own_routers _ _) Hrun)
    as [Hwf (_ & _ & Hinj)].
  destruct (addControllerHandlers_eq _ _ _ _ Hwf He Hv) as (c & Hc & ->).
  eexists. split; [apply final_finish|]. split.
  { intros Hrt. by rewrite (proj2 (refused_None _) Hrt). }
  set (ds := accepted (declared w hs)).
  destruct (record_all_fields e ds w) as (_ & _ & Hmap & Hrt).
  assert (∀ r, r ≠ router e →
            routers (bind_routes (router e) (route_of (Controller.instance c) <$> ds)
                       (record_all e ds w)) !! r = routers w !! r) as Hother.
  { intros r Hr. cbn [routers bind_routes set_routers].
    rewrite list_lookup_alter_ne by done. by rewrite Hrt. }
  split; [|done]. unfold routes_of.
  cbn [routerControllerMap bind_routes set_routers]. rewrite Hmap, He'. simpl.
  apply Hother. intros Heq. apply Hne. by eapply Hinj.
Qed.

Lemma attach_touches_one_scope_witness :
  ∃ w',
    addControllerHandlers (E := picky) "declared" (One get_test_copy) in_service = Ok w'
    ∧ routes_of w' "test" = routes_of in_service "test".
Proof.
  destruct (attach_touches_one_scope (E := picky) session [Stub; Test; Declared]
              [[get_test]] in_service
              "declared" "test" (mkEntry 2 2) (mkEntry 1 1) (One get_test_copy))
    as (w' & _ & Hok & Hsame & _).
  - by_evaluation.
  - vm_compute. reflexivity.
  - vm_compute. reflexivity.
  - vm_compute. reflexivity.
  - discriminate.
  - exact I.
  - exists w'. split; [apply Hok; by_evaluation | exact Hsame].
Defined.



(** *** One declaration or an array of them *)

(** X6. Passing one declaration is the same as passing an array that holds
    just that declaration: the two calls have the same outcome and leave the
    same state, whatever the name. *)
Theorem one_declaration_is_a_singleton_array {E : Engine} w id a h :
  wf w → arrays w !! a = Some [h] →
  addControllerHandlers id (Many a) w = addControllerHandlers id (One h) w.
Proof.
  intros Hwf Ha. destruct (routerControllerMap w !! id) as [e|] eqn:He.
  - destruct (addControllerHandlers_eq id e (Many a) w Hwf He) as (c & Hc & ->);
      [by eapply lookup_lt_Some|].
    destruct (addControllerHandlers_eq id e (One h) w Hwf He I) as (c' & Hc' & ->).
    assert (c' = c) as -> by congruence.
    cbn [declared]. by rewrite Ha.
  - unfold addControllerHandlers, get. rewrite He. by case_bool_decide.
Qed.

Lemma one_declaration_is_a_singleton_array_witness :
  addControllerHandlers (E := picky) "test" (Many 0) test_registered
  = addControllerHandlers (E := picky) "test" (One get_test) test_registered.
Proof.
  apply (one_declaration_is_a_singleton_array (E := picky) test_registered "test" 0 get_test).
  - by_evaluation.
  - reflexivity.
Defined.

(** X7. Attaching an empty array to a registered controller changes nothing at
    all: no route is bound, and a [handler] field that is still undefined is
    not even initialised, because the loop body never runs. *)
Theorem attach_empty_array_changes_nothing {E : Engine} w id e a :
  wf w → routerControllerMap w !! id = Some e → arrays w !! a = Some [] →
  addControllerHandlers id (Many a) w = Ok w.
Proof.
  intros Hwf He Ha.
  destruct (addControllerHandlers_eq id e (Many a) w Hwf He) as (c & Hc & ->);
    [by eapply lookup_lt_Some|].
  cbn [declared]. rewrite Ha. simpl. by rewrite bind_routes_nil.
Qed.

Lemma attach_empty_array_changes_nothing_witness :
  addControllerHandlers (E := picky) "test" (Many 0) beside_empty_array = Ok beside_empty_array
  ∧ handlers_of beside_empty_array "test" = Some []
  ∧ Controller.handler <$> controllers beside_empty_array !! 0 = Some None.
Proof.
  split; [|split; vm_compute; reflexivity].
  apply (attach_empty_array_changes_nothing (E := picky) beside_empty_array "test"
           (mkEntry 0 0) 0).
  - by_evaluation.
  - vm_compute. reflexivity.
  - reflexivity.
Defined.

(** *** Which calls return *)

(** X8. A registration throws the duplicate error, and leaves the state as
    it was, exactly for a name that is registered or is an inherited property
    name of the registry object (also on a server without any controller).
    It returns exactly for a free name whose pre-declared handlers are all on
    paths the engine accepts.  In the remaining case the engine's exception
    for the first refused path leaves the call after the entry was filed and
    before the router is mounted: the name is registered, its router holds
    the routes of the declarations before the refused one, the application
    is as it was, and registering the controller again throws the duplicate
    error. *)
Theorem addController_outcome {E : Engine} w c ctrl :
  wf w → controllers w !! c = Some ctrl →
  (addController c w = Throw DuplicateControllerError w ↔
     is_Some (routerControllerMap w !! Controller.name ctrl)
     ∨ Controller.name ctrl ∈ Object_prototype)
  ∧ ((∃ w', addController c w = Ok w') ↔
       routerControllerMap w !! Controller.name ctrl = None
       ∧ (Controller.name ctrl ∉ Object_prototype)
       ∧ routable (predeclared w ctrl))
  ∧ ∀ err w', addController c w = Throw err w' →
      (err = DuplicateControllerError ∧ w' = w)
      ∨ ∃ ds h rest,
          predeclared w ctrl = ds ++ h :: rest
          ∧ routable ds
          ∧ route_ok (ControllerHandler.path (obj h)) = false
          ∧ err = EngineError (ControllerHandler.path (obj h))
          ∧ routerControllerMap w'
            = <[Controller.name ctrl := {| router := length (routers w); controller := c |}]>
                (routerControllerMap w)
          ∧ routers w'
            = routers w
              ++ [(λ d, {| verb := ControllerHandler.method (obj d);
                           pattern := ControllerHandler.path (obj d);
                           shim := {| target := Controller.instance ctrl;
                                      methodName := ControllerHandler.handler (obj d) |} |})
                  <$> ds]
          ∧ app w' = app w ∧ server w' = server w
          ∧ controllers w' = controllers w ∧ arrays w' = arrays w
          ∧ addController c w' = Throw DuplicateControllerError w'.
Proof.
  intros Hwf Hc.
  destruct (get_cases (routerControllerMap w) (Controller.name ctrl))
    as [(e & He & Hget)|[(Hnone & Hin & Hget)|(Hnone & Hnin & Hget)]].
  - assert (addController c w = Throw DuplicateControllerError w) as ->
      by (unfold addController; by rewrite Hc, Hget).
    split_and!.
    + split; [by left; eexists | done].
    + split; [by intros [? ?] | intros [? _]; congruence].
    + intros err w' ?. left. by simplify_eq.
  - assert (addController c w = Throw DuplicateControllerError w) as ->
      by (unfold addController; by rewrite Hc, Hget).
    split_and!.
    + split; [by right | done].
    + split; [by intros [? ?] | by intros (_ & ? & _)].
    + intros err w' ?. left. by simplify_eq.
  - rewrite (addController_eq _ _ _ Hwf Hc Hget).
    destruct (refused (predeclared w ctrl)) as [p|] eqn:Hp.
    + destruct (refused_Some _ _ Hp) as (ds & h & rest & Hhs & Hacc & Hds & Hh & ->).
      rewrite Hacc.
      rewrite (register_state _ _ ds _ Hwf Hc) by (rewrite Hhs; by apply prefix_app_r).
      simpl. split_and!.
      * split; [done|]. intros [[e He]|?]; [congruence | done].
      * split; [by intros [? ?]|]. intros (_ & _ & Hrt%refused_None). congruence.
      * intros err w' [= <- <-]. right. exists ds, h, rest.
        split_and!; try done.
        unfold addController. cbn [controllers routerControllerMap]. rewrite Hc.
        by rewrite (get_own _ _ _ (lookup_insert_eq _ _ _)).
    + simpl. split_and!.
      * split; [done|]. intros [[e He]|?]; [congruence | done].
      * split; [intros _ | by eexists]. split_and!; [done | done | by apply refused_None].
      * done.
Qed.

Lemma addController_outcome_witness :
  ∃ w',
    addController (E := picky) 0 beside_broken = Throw (EngineError "?") w'
    ∧ routerControllerMap w' !! "broken" = Some (mkEntry 0 0)
    ∧ routers w'
      = [[ {| verb := GET; pattern := "/test";
              shim := {| target := 4; methodName := "test" |} |} ]]
    ∧ app w' = app beside_broken
    ∧ addController (E := picky) 0 w' = Throw DuplicateControllerError w'.
Proof.
  destruct (addController_outcome (E := picky) beside_broken 0 Broken) as (_ & _ & Hthrow).
  - by_evaluation.
  - reflexivity.
  - destruct (Hthrow (EngineError "?") (after (addController (E := picky) 0 beside_broken)))
      as [[Hdup _]|(ds & h & rest & _ & _ & _ & _ & _ & _ & Happ & _ & _ & _ & Hagain)].
    + vm_compute. reflexivity.
    + discriminate Hdup.
    + exists (after (addController (E := picky) 0 beside_broken)).
      split; [vm_compute; reflexivity|]. split; [vm_compute; reflexivity|].
      split; [vm_compute; reflexivity|]. split; [exact Happ | exact Hagain].
Defined.



(** *** What an array of declarations adds to the handler list *)

Lemma prefix_fmap_elem {A B} (f : A → B) (l1 l2 : list A) x :
  l1 `prefix_of` l2 → x ∈ f <$> l1 → x ∈ f <$> l2.
Proof. intros [k ->] Hx. rewrite fmap_app. apply elem_of_app. by left. Qed.

Lemma foldl_push_new_prefix hs l : l `prefix_of` foldl push_new l hs.
Proof.
  revert l. induction hs as [|h hs IH]; intros l; [done|].
  simpl. etrans; [apply push_new_prefix | apply IH].
Qed.

Lemma foldl_push_new_has hs l h : h ∈ hs → addr h ∈ addr <$> foldl push_new l hs.
Proof.
  revert l. induction hs as [|h' hs IH]; intros l Hin; [by apply elem_of_nil in Hin|].
  simpl. apply elem_of_cons in Hin as [->|Hin]; [|by apply IH].
  eapply prefix_fmap_elem; [apply foldl_push_new_prefix | apply push_new_has].
Qed.

Lemma foldl_push_new_from hs l x : x ∈ foldl push_new l hs → x ∈ l ∨ x ∈ hs.
Proof.
  revert l. induction hs as [|h hs IH]; intros l Hx; [by left|].
  simpl in Hx. destruct (IH _ Hx) as [Hl|Hhs]; [|right; by right].
  unfold push_new in Hl. case_bool_decide; [by left|].
  apply elem_of_app in Hl as [?|Hh]; [by left|].
  apply list_elem_of_singleton in Hh as ->. right. by left.
Qed.

Lemma foldl_push_new_NoDup hs l :
  NoDup (addr <$> l) → NoDup (addr <$> foldl push_new l hs).
Proof.
  revert l. induction hs as [|h hs IH]; intros l Hl; [done|].
  simpl. by apply IH, push_new_NoDup.
Qed.

(** X10. Attaching declarations, all on paths the engine accepts, to a
    registered controller extends its handler list, in the order of the
    declarations, by those objects that are not yet in it (the first occurrence of each): the old list is a prefix of the new
    one, every declared object is in the new list, every new entry was
    declared, and a list without repeated objects stays without. *)
Theorem attach_records_first_occurrences {E : Engine} w id e hs l :
  wf w → routerControllerMap w !! id = Some e → valid w hs →
  routable (declared w hs) →
  handlers_of w id = Some l →
  ∃ w' l',
    addControllerHandlers id hs w = Ok w'
    ∧ handlers_of w' id = Some l'
    ∧ l' = foldl (λ acc h, if bool_decide (addr h ∈ addr <$> acc) then acc else acc ++ [h])
             l (declared w hs)
    ∧ l `prefix_of` l'
    ∧ (∀ h, h ∈ declared w hs → addr h ∈ addr <$> l')
    ∧ (∀ x, x ∈ l' → x ∈ l ∨ x ∈ declared w hs)
    ∧ (NoDup (addr <$> l) → NoDup (addr <$> l')).
Proof.
  intros Hwf He Hv Hrt Hl.
  destruct (addControllerHandlers_eq id e hs w Hwf He Hv) as (c & Hc & Heq).
  rewrite (proj2 (refused_None _) Hrt), (accepted_routable _ Hrt) in Heq. simpl in Heq.
  assert (ready id e (Controller.instance c) w) as Hr by (split_and!; eauto).
  eexists _, (foldl push_new l (declared w hs)). split; [exact Heq|]. split_and!.
  - rewrite handlers_of_bind_routes. by eapply handlers_of_record_all.
  - done.
  - apply foldl_push_new_prefix.
  - intros h. apply foldl_push_new_has.
  - intros x. apply foldl_push_new_from.
  - apply foldl_push_new_NoDup.
Qed.

Lemma attach_records_first_occurrences_witness :
  ∃ w',
    addControllerHandlers (E := picky) "test" (Many 0) test_attached = Ok w'
    ∧ handlers_of w' "test" = Some [get_test].
Proof.
  destruct (attach_records_first_occurrences (E := picky) test_attached "test" (mkEntry 0 1)
              (Many 0) [get_test]) as (w' & l' & Hok & Hl' & -> & _).
  - by_evaluation.
  - vm_compute. reflexivity.
  - by_evaluation.
  - by_evaluation.
  - vm_compute. reflexivity.
  - exists w'. split; [exact Hok | exact Hl'].
Defined.

(** X11. When the objects of two registered controllers hold the same handler
    array, handlers attached to one of them are recorded for the other as
    well (the two handler lists are one list), although the routes are bound in

    the first controller's router only. *)
Theorem shared_array_is_one_record {E : Engine} w id1 id2 e1 e2 c1 c2 a hs :
  wf w →
  routerControllerMap w !! id1 = Some e1 → routerControllerMap w !! id2 = Some e2 →
  controllers w !! controller e1 = Some c1 → controllers w !! controller e2 = Some c2 →
  Controller.handler c1 = Some a → Controller.handler c2 = Some a →
  router e1 ≠ router e2 → valid w hs → routable (declared w hs) →
  ∃ w' l,
    addControllerHandlers id1 hs w = Ok w'
    ∧ handlers_of w' id1 = Some l
    ∧ handlers_of w' id2 = Some l
    ∧ (∀ h, h ∈ declared w hs → addr h ∈ addr <$> l)
    ∧ routes_of w' id2 = routes_of w id2.
Proof.
  intros Hwf He1 He2 Hc1 Hc2 Hh1 Hh2 Hne Hv Hrt.
  destruct (addControllerHandlers_eq id1 e1 hs w Hwf He1 Hv) as (c & Hc & Heq).
  rewrite (proj2 (refused_None _) Hrt), (accepted_routable _ Hrt) in Heq. simpl in Heq.
  assert (c = c1) as -> by congruence.
  assert (ready id1 e1 (Controller.instance c1) w) as Hr by (split_and!; eauto).
  destruct (lookup_lt_is_Some_2 (arrays w) a) as [l0 Hl0].
  { pose proof (wf_handler _ _ _ Hwf Hc1) as Hin. unfold handler_in in Hin.
    by rewrite Hh1 in Hin. }
  assert (handlers_of w id1 = Some l0) as Hl1.
  { unfold handlers_of. rewrite He1. simpl. rewrite Hc1. simpl. by rewrite Hh1. }
  set (w' := bind_routes (router e1) (route_of (Controller.instance c1) <$> declared w hs)
               (record_all e1 (declared w hs) w)) in *.
  assert (handlers_of w' id1 = Some (foldl push_new l0 (declared w hs))) as Hl1'.
  { subst w'. rewrite handlers_of_bind_routes. by eapply handlers_of_record_all. }
  assert (extends w w') as (Hm & _ & _ & _ & Hcs).
  { eapply extends_trans; [apply extends_record_all | apply extends_bind_routes]. }
  destruct (Hcs _ _ Hc1) as (c1' & Hc1' & _ & _ & Hk1).
  destruct (Hcs _ _ Hc2) as (c2' & Hc2' & _ & _ & Hk2).
  assert (routes_of w' id2 = routes_of w id2) as Hroutes.
  { destruct (record_all_fields e1 (declared w hs) w) as (_ & _ & Hmap & Hrts).
    unfold routes_of. subst w'. cbn [routerControllerMap routers bind_routes set_routers].
    rewrite Hmap, He2. simpl. rewrite list_lookup_alter_ne by done. by rewrite Hrts. }
  clearbody w'.
  exists w', (foldl push_new l0 (declared w hs)). split; [exact Heq|]. split_and!.
  - done.
  - rewrite <-Hl1'. unfold handlers_of.
    rewrite (Hm _ _ He1), (Hm _ _ He2). simpl. rewrite Hc1', Hc2'. simpl.
    by rewrite (Hk1 _ Hh1), (Hk2 _ Hh2).
  - intros h. apply foldl_push_new_has.
  - done.
Qed.

Lemma shared_array_is_one_record_witness :
  ∃ w',
    addControllerHandlers (E := picky) "a" (One get_test) sharing = Ok w'
    ∧ handlers_of w' "b" = Some [get_test]
    ∧ routes_of w' "b" = Some [].
Proof.
  destruct (shared_array_is_one_record (E := picky) sharing "a" "b" (mkEntry 0 0) (mkEntry 1 1)
              (Controller.mk "a" 0 (Some 0)) (Controller.mk "b" 1 (Some 0)) 0 (One get_test))
    as (w' & l & Hok & Hl1 & Hl2 & _ & Hroutes).
  - by_evaluation.
  - vm_compute. reflexivity.
  - vm_compute. reflexivity.
  - reflexivity.
  - reflexivity.
  - reflexivity.
  - reflexivity.
  - discriminate.
  - exact I.
  - by_evaluation.
  - exists w'. split; [exact Hok|]. split; [|exact Hroutes].
    assert (w' = after (addControllerHandlers (E := picky) "a" (One get_test) sharing)) as Hw'
      by (by rewrite Hok).
    rewrite Hl2, <-Hl1, Hw'. vm_compute. reflexivity.
Defined.


(** *** Names in the registry *)

(** X12. In every state reached from a new server, each entry of the registry
    is filed under the name of the controller object it points to, never under
    a property name that the registry object inherits, and no controller
    object is registered under two names; every further call whose arguments
    are objects of the store returns or throws. *)
Theorem registry_is_filed_by_name {E : Engine} acts cs arrs w :
  Forall (handler_in (length arrs)) cs →
  run_all acts (constructor cs arrs) = Some w →
  (∀ id e, routerControllerMap w !! id = Some e →
     (id ∉ Object_prototype)
     ∧ ∃ c, controllers w !! controller e = Some c ∧ Controller.name c = id)
  ∧ (∀ id1 id2 e1 e2,
       routerControllerMap w !! id1 = Some e1 →
       routerControllerMap w !! id2 = Some e2 →
       controller e1 = controller e2 → id1 = id2)
  ∧ ∀ a, allowed w a → is_Some (final (perform a w)).
Proof.
  intros Hcs Hrun.
  destruct (run_all_keeps names_ok step_shape_names acts (constructor cs arrs) w)
    as [Hwf Hok]; [by apply constructor_wf | by intros id e He | done |].
  split_and!.
  - done.
  - intros id1 id2 e1 e2 H1 H2 Heq.
    destruct (Hok _ _ H1) as (_ & c1 & Hc1 & <-).
    destruct (Hok _ _ H2) as (_ & c2 & Hc2 & <-). congruence.
  - intros a Ha. destruct (perform_shape a w Hwf Ha) as (w' & ds & -> & _). by eexists.
Qed.

Lemma registry_is_filed_by_name_witness :
  ("test" ∉ Object_prototype)
  ∧ ∃ c, controllers in_service !! 1 = Some c ∧ Controller.name c = "test".
Proof.
  destruct (registry_is_filed_by_name (E := picky) session [Stub; Test; Declared]
              [[get_test]] in_service) as (Hnames & _).
  - by_evaluation.
  - vm_compute. reflexivity.
  - apply (Hnames "test" (mkEntry 1 1)). vm_compute. reflexivity.
Defined.

(** *** Routes and their records *)

Lemma sound_member objs h l :
  sound objs h → Forall (sound objs) l → addr h ∈ addr <$> l → h ∈ l.
Proof.
  intros Hh Hl (h' & Haddr & Hin)%list_elem_of_fmap.
  pose proof (proj1 (Forall_forall _ _) Hl h' Hin) as Hh'.
  assert (h = h') as ->; [|done].
  unfold sound in *. destruct h, h'; simpl in *. congruence.
Qed.

Lemma handlers_of_sound objs w id l :
  sound_store objs w → handlers_of w id = Some l → Forall (sound objs) l.
Proof.
  intros Hw Hl. unfold handlers_of in Hl.
  destruct (routerControllerMap w !! id) as [e|]; [|done]. simpl in Hl.
  destruct (controllers w !! controller e) as [c|]; [|done]. simpl in Hl.
  destruct (Controller.handler c) as [a|].
  - eapply (proj1 (Forall_forall _ _) Hw). by eapply list_elem_of_lookup_2.
  - by simplify_eq.
Qed.

Lemma record_sound objs e h w :
  sound objs h → sound_store objs w → sound_store objs (record e h w).
Proof.
  intros Hh Hw. unfold record, sound_store in *.
  destruct (controllers w !! controller e) as [c|]; [|done].
  destruct (Controller.handler c) as [a|].
  - destruct (arrays w !! a) as [l|] eqn:Hl; [|done]. simpl.
    apply Forall_insert; [done|].
    pose proof (proj1 (Forall_forall _ _) Hw l (list_elem_of_lookup_2 _ _ _ Hl)) as Hsl.
    unfold push_new. case_bool_decide; [done|].
    apply Forall_app. split; [done | by constructor].
  - simpl. apply Forall_app. split; [done | by repeat constructor].
Qed.

Lemma record_all_sound objs e hs w :
  Forall (sound objs) hs → sound_store objs w → sound_store objs (record_all e hs w).
Proof.
  intros Hhs. revert w. induction Hhs as [|h hs Hh _ IH]; intros w Hw; [done|].
  simpl. by apply IH, record_sound.
Qed.

Lemma offered_sound objs a ds w :
  sound_store objs w → sound_action objs a → ds `prefix_of` offered a w →
  Forall (sound objs) ds.
Proof.
  intros Hw Ha [k Hds].
  assert (Forall (sound objs) (offered a w)) as Hall.
  { assert (∀ i, Forall (sound objs) (default [] (arrays w !! i))) as Harr.
    { intros i. destruct (arrays w !! i) as [l|] eqn:Hl; [|constructor].
      eapply (proj1 (Forall_forall _ _) Hw). by eapply list_elem_of_lookup_2. }
    destruct a as [[p| |m|c|id [h|i]|p l]|cfg|cfg]; simpl in *;
      try (by repeat constructor).
    - destruct (controllers w !! c) as [c'|]; [|constructor]. simpl.
      destruct (Controller.handler c') as [i|]; [|constructor]. apply Harr. }
  rewrite Hds in Hall. by apply Forall_app in Hall as [? _].
Qed.

Lemma step_shape_sound objs w ds w' :
  sound_store objs w → Forall (sound objs) ds → step_shape w ds w' → sound_store objs w'.
Proof.
  intros Hw Hds Hshape. revert Hds.
  destruct Hshape as [|x srv _|id e c hs _ _|c ctrl hs _ _|c ctrl hs _ _]; intros Hds.
  - done.
  - exact Hw.
  - exact (record_all_sound objs e hs w Hds Hw).
  - exact (record_all_sound objs _ hs (createRouterForController c ctrl w).2 Hds Hw).
  - exact (record_all_sound objs _ hs (createRouterForController c ctrl w).2 Hds Hw).
Qed.

(** Attaching sound declarations to a registered controller keeps every
    route recorded. *)
Lemma attach_routes_recorded objs id e c hs w :
  wf w → own_routers w → sound_store objs w → routes_recorded w →
  Forall (sound objs) hs →
  routerControllerMap w !! id = Some e → controllers w !! controller e = Some c →
  routes_recorded
    (bind_routes (router e) (route_of (Controller.instance c) <$> hs) (record_all e hs w)).
Proof.
  intros Hwf (_ & _ & Hinj) Hsound HJ Hhs He Hc.
  set (w' := bind_routes _ _ _).
  assert (wf w') as Hwf' by (by apply bind_routes_wf, record_all_wf).
  assert (extends w w') as Hext
    by (eapply extends_trans; [apply extends_record_all | apply extends_bind_routes]).
  assert (sound_store objs w') as Hsound' by exact (record_all_sound objs e hs w Hhs Hsound).
  assert (ready id e (Controller.instance c) w) as Hready by (split_and!; eauto).
  destruct (record_all_fields e hs w) as (_ & _ & Hmap & Hrt).
  intros id1 e1 c1' stack' l' He1' Hc1' Hs' Hl' route Hroute.
  assert (routerControllerMap w !! id1 = Some e1) as He1
    by (by rewrite <-Hmap).
  destruct (wf_ready _ _ _ Hwf He1) as (c1 & stack & l & Hc1 & Hs & Hl & _).
  assert (Controller.instance c1' = Controller.instance c1) as Hinst.
  { destruct Hext as (_ & _ & _ & _ & Hcs).
    destruct (Hcs _ _ Hc1) as (c2 & Hc2 & _ & Hi & _). congruence. }
  destruct (extends_handlers w w' id1 e1 l Hwf' Hext He1 Hl) as (l1 & Hl1 & Hpre).
  assert (l1 = l') as -> by congruence.
  assert (route ∈ stack → ∃ h, h ∈ l' ∧ route = route_of (Controller.instance c1') h)
    as Hold.
  { intros Hin. destruct (HJ _ _ _ _ _ He1 Hc1 Hs Hl route Hin) as (h & Hh & ->).
    exists h. split; [|by rewrite Hinst].
    destruct Hpre as [k ->]. apply elem_of_app. by left. }
  subst w'. cbn [routers bind_routes set_routers] in Hs'. rewrite Hrt in Hs'.
  destruct (decide (router e = router e1)) as [Heq|Hne].
  - assert (id = id1) as <- by (by eapply Hinj).
    assert (e1 = e) as -> by congruence. assert (c1 = c) as -> by congruence.
    rewrite list_lookup_alter_eq, Hs in Hs'. simpl in Hs'. simplify_eq.
    apply elem_of_app in Hroute as [Hroute|Hroute]; [by apply Hold|].
    apply list_elem_of_fmap in Hroute as (h & -> & Hh).
    exists h. split; [|by rewrite Hinst].
    apply (sound_member objs).
    + by apply (proj1 (Forall_forall _ _) Hhs).
    + by eapply handlers_of_sound.
    + rewrite handlers_of_bind_routes in Hl'.
      rewrite (handlers_of_record_all _ _ _ hs _ _ Hready Hl) in Hl'. simplify_eq.
      by apply foldl_push_new_has.
  - rewrite list_lookup_alter_ne in Hs' by done. apply Hold. by simplify_eq.
Qed.

Lemma register_routes_recorded c ctrl w :
  wf w → controllers w !! c = Some ctrl →
  get (routerControllerMap w) (Controller.name ctrl) = Undefined →
  routes_recorded w → routes_recorded (createRouterForController c ctrl w).2.
Proof.
  intros Hwf Hc Hget HJ id e c' stack l He Hc' Hs Hl route Hroute.
  apply get_undefined in Hget as [Hfree _].
  cbn in He, Hc', Hs.
  apply lookup_insert_Some in He as [[<- <-]|[Hne He]].
  - simpl in Hs. rewrite lookup_app_r, Nat.sub_diag in Hs by done.
    simpl in Hs. simplify_eq. by apply elem_of_nil in Hroute.
  - destruct (wf_entry _ _ _ Hwf He) as [Hlt _].
    rewrite lookup_app_l in Hs by done.
    rewrite handlers_of_register in Hl by (done || by eexists).
    by eapply HJ.
Qed.

Lemma step_shape_routes_recorded objs w ds w' :
  wf w → own_routers w ∧ sound_store objs w ∧ routes_recorded w →
  Forall (sound objs) ds → step_shape w ds w' →
  own_routers w' ∧ sound_store objs w' ∧ routes_recorded w'.
Proof.
  intros Hwf (Hown & Hsound & HJ) Hds Hshape.
  split; [by eapply step_shape_own_routers|].
  split; [by eapply step_shape_sound|].
  assert (∀ c ctrl hs,
            controllers w !! c = Some ctrl →
            get (routerControllerMap w) (Controller.name ctrl) = Undefined →
            Forall (sound objs) hs →
            routes_recorded
              (bind_routes (length (routers w)) (route_of (Controller.instance ctrl) <$> hs)
                 (record_all {| router := length (routers w); controller := c |} hs
                    (createRouterForController c ctrl w).2))) as Hfiled.
  { intros c ctrl hs Hc Hget Hhs.
    apply (attach_routes_recorded objs (Controller.name ctrl)
             {| router := length (routers w); controller := c |} ctrl hs
             (createRouterForController c ctrl w).2).
    - apply createRouterForController_wf; [done | by eapply lookup_lt_Some].
    - pose proof (step_shape_own_routers w [] _ Hwf Hown (shape_filed w c ctrl [] Hc Hget))
        as Hown1.
      simpl in Hown1. by rewrite bind_routes_nil in Hown1.
    - done.
    - by apply register_routes_recorded.
    - done.
    - apply lookup_insert_eq.
    - done. }
  revert Hds.
  destruct Hshape as [|x srv _|id e c hs He Hc|c ctrl hs Hc Hget|c ctrl hs Hc Hget];
    intros Hds.
  - done.
  - exact HJ.
  - by apply (attach_routes_recorded objs id).
  - exact (Hfiled c ctrl hs Hc Hget Hds).
  - exact (Hfiled c ctrl hs Hc Hget Hds).
Qed.

Lemma run_all_routes_recorded {E : Engine} objs acts cs arrs w :
  Forall (handler_in (length arrs)) cs →
  Forall (Forall (sound objs)) arrs →
  Forall (sound_action objs) acts →
  run_all acts (constructor cs arrs) = Some w →
  wf w ∧ sound_store objs w ∧ routes_recorded w.
Proof.
  intros Hcs Harrs Hacts Hrun.
  destruct (run_all_invariant
              (λ w, own_routers w ∧ sound_store objs w ∧ routes_recorded w)
              (sound_action objs)) with (acts := acts) (w := constructor cs arrs) (w' := w)
    as (Hwf & _ & Hsound & HJ).
  - intros w0 a ds w0' Hwf0 HP Ha Hds Hshape.
    apply (step_shape_routes_recorded objs w0 ds w0' Hwf0 HP); [|done].
    destruct HP as (_ & Hs0 & _). by eapply offered_sound.
  - done.
  - by apply constructor_wf.
  - split; [apply constructor_own_routers|]. split; [done|].
    intros id0 e0 ? ? ? He0. by simpl in He0.
  - done.
  - done.
Qed.

(** X13. Take a new server next to declaration objects that client code does
    not modify once made (each address holds one object, in the arrays of
    the store and in the calls).  In every state reached from it, every route
    bound in the router of a registered controller has the verb, the path
    and the method name of a declaration that is an element of that
    controller's handler list, and dispatches to that controller's instance:
    the registry never lacks the record of a route, also after calls that the
    engine interrupted. *)
Theorem every_route_is_recorded {E : Engine} objs acts cs arrs w id e c stack l :
  Forall (handler_in (length arrs)) cs →
  Forall (Forall (sound objs)) arrs →
  Forall (sound_action objs) acts →
  run_all acts (constructor cs arrs) = Some w →
  routerControllerMap w !! id = Some e →
  controllers w !! controller e = Some c →
  routes_of w id = Some stack → handlers_of w id = Some l →
  ∀ route, route ∈ stack →
    ∃ h, h ∈ l
         ∧ verb route = ControllerHandler.method (obj h)
         ∧ pattern route = ControllerHandler.path (obj h)
         ∧ methodName (shim route) = ControllerHandler.handler (obj h)
         ∧ target (shim route) = Controller.instance c.
Proof.
  intros Hcs Harrs Hacts Hrun He Hc Hstack Hl route Hroute.
  destruct (run_all_routes_recorded objs acts cs arrs w Hcs Harrs Hacts Hrun)
    as (_ & _ & HJ).
  unfold routes_of in Hstack. rewrite He in Hstack. simpl in Hstack.
  destruct (HJ _ _ _ _ _ He Hc Hstack Hl route Hroute) as (h & Hh & ->).
  exists h. by split_and!.
Qed.

Lemma every_route_is_recorded_witness :
  ∃ h, h ∈ [get_test]
       ∧ GET = ControllerHandler.method (obj h)
       ∧ "/test" = ControllerHandler.path (obj h)
       ∧ "test" = ControllerHandler.handler (obj h)
       ∧ 1 = 1.
Proof.
  refine (every_route_is_recorded (E := picky) sample_objs session [Stub; Test; Declared]
            [[get_test]] in_service
            "test" (mkEntry 1 1) (Controller.mk "test" 1 (Some 1))
            [ {| verb := GET; pattern := "/test";
                 shim := {| target := 1; methodName := "test" |} |} ]
            [get_test] _ _ _ _ _ _ _ _
            {| verb := GET; pattern := "/test";
               shim := {| target := 1; methodName := "test" |} |} _).
  - by_evaluation.
  - by_evaluation.
  - by_evaluation.
  - vm_compute. reflexivity.
  - vm_compute. reflexivity.
  - vm_compute. reflexivity.
  - vm_compute. reflexivity.
  - vm_compute. reflexivity.
  - by left.
Defined.



(** *** Declarations brought along or attached later *)

Lemma foldl_push_new_distinct hs acc :
  NoDup (addr <$> (acc ++ hs)) → foldl push_new acc hs = acc ++ hs.
Proof.
  revert acc. induction hs as [|h hs IH]; intros acc Hnd; simpl.
  - by rewrite app_nil_r.
  - assert (addr h ∉ addr <$> acc) as Hfresh.
    { rewrite fmap_app in Hnd. apply NoDup_app in Hnd as (_ & Hdisj & _).
      intros Hin. apply (Hdisj _ Hin). simpl. left. }
    rewrite (push_new_fresh _ _ Hfresh), IH; rewrite <-(assoc_L (++)); done.
Qed.

(** X15. When the engine accepts the paths of all the declarations,
    registering a controller that brings them along and registering it
    without them and attaching the same array afterwards bind the same routes, but record differently: registration keeps the array as
    it is, repeated objects included, while attaching records each object
    once.  The two handler lists agree when the array holds no object twice. *)
Theorem declare_then_register_or_attach {E : Engine} w c1 c2 ctrl1 ctrl2 a l :
  wf w →
  controllers w !! c1 = Some ctrl1 → controllers w !! c2 = Some ctrl2 →
  Controller.name ctrl2 = Controller.name ctrl1 →
  Controller.instance ctrl2 = Controller.instance ctrl1 →
  Controller.handler ctrl1 = Some a → Controller.handler ctrl2 = None →
  arrays w !! a = Some l → routable l →
  get (routerControllerMap w) (Controller.name ctrl1) = Undefined →
  ∃ w1 w2 w3,
    addController c1 w = Ok w1
    ∧ addController c2 w = Ok w2
    ∧ addControllerHandlers (Controller.name ctrl1) (Many a) w2 = Ok w3
    ∧ routes_of w3 (Controller.name ctrl1) = routes_of w1 (Controller.name ctrl1)
    ∧ handlers_of w1 (Controller.name ctrl1) = Some l
    ∧ handlers_of w3 (Controller.name ctrl1) = Some (foldl push_new [] l)
    ∧ (NoDup (addr <$> l) →
       handlers_of w3 (Controller.name ctrl1) = handlers_of w1 (Controller.name ctrl1)).
Proof.
  intros Hwf Hc1 Hc2 Hname Hinst Hh1 Hh2 Ha Hrt Hget.
  pose proof (addController_eq w c1 ctrl1 Hwf Hc1 Hget) as H1. cbv zeta in H1.
  unfold predeclared in H1. rewrite Hh1, Ha in H1. simpl (default _ _) in H1.
  rewrite (proj2 (refused_None _) Hrt), (accepted_routable _ Hrt) in H1.
  assert (get (routerControllerMap w) (Controller.name ctrl2) = Undefined) as Hget2
    by (by rewrite Hname).
  pose proof (addController_eq w c2 ctrl2 Hwf Hc2 Hget2) as H2. cbv zeta in H2.
  unfold predeclared in H2. rewrite Hh2 in H2.
  cbn [refused accepted finish fmap list_fmap] in H2. rewrite bind_routes_nil in H2.
  change (record_all _ [] ?x) with x in H2.
  set (n := length (routers w)) in *.
  set (e1 := {| router := n; controller := c1 |}) in *.
  set (e2 := {| router := n; controller := c2 |}) in *.
  set (v1 := (createRouterForController c1 ctrl1 w).2) in *.
  assert (record_all e1 l v1 = v1) as Hsame.
  { apply (record_all_members e1 ctrl1 a l); [done | done | done |].
    intros h Hin. apply list_elem_of_fmap. by exists h. }
  rewrite Hsame in H1.
  set (w2 := use (Mounted n) (createRouterForController c2 ctrl2 w).2) in *.
  assert (wf w2) as Hwf2.
  { apply use_wf, createRouterForController_wf; [done | by eapply lookup_lt_Some]. }
  assert (routerControllerMap w2 !! Controller.name ctrl1 = Some e2) as He2.
  { subst w2. cbn. rewrite Hname. apply lookup_insert_eq. }
  assert (ready (Controller.name ctrl1) e2 (Controller.instance ctrl2) w2) as Hready
    by (split_and!; [done | done | by exists ctrl2]).
  assert (valid w2 (Many a)) as Hv by (simpl; by eapply lookup_lt_Some).
  destruct (addControllerHandlers_eq _ _ _ _ Hwf2 He2 Hv) as (c & Hc & H3).
  assert (c = ctrl2) as -> by (cbn in Hc; congruence).
  assert (declared w2 (Many a) = l) as Hdecl by (simpl; by rewrite Ha).
  rewrite Hdecl in H3.
  rewrite (proj2 (refused_None _) Hrt), (accepted_routable _ Hrt) in H3.
  assert (handlers_of w2 (Controller.name ctrl1) = Some []) as Hl2.
  { unfold handlers_of. rewrite He2. simpl. rewrite Hc2. simpl. by rewrite Hh2. }
  pose proof (record_all_ready _ _ _ l _ Hready) as (_ & He3 & _).
  assert (handlers_of (bind_routes (router e2) (route_of (Controller.instance ctrl2) <$> l)
                         (record_all e2 l w2)) (Controller.name ctrl1)
          = Some (foldl push_new [] l)) as Hl3.
  { rewrite handlers_of_bind_routes. by eapply handlers_of_record_all. }
  assert (handlers_of (use (Mounted n)
                         (bind_routes n (route_of (Controller.instance ctrl1) <$> l) v1))
            (Controller.name ctrl1) = Some l) as Hl1.
  { unfold handlers_of. cbn. rewrite lookup_insert_eq. simpl. rewrite Hc1. simpl.
    by rewrite Hh1. }
  eexists _, _, _. split; [exact H1|]. split; [exact H2|]. split; [exact H3|]. split_and!.
  - rewrite (routes_of_bind_routes _ _ _ _ He3), routes_of_record_all.
    unfold routes_of. rewrite He2. cbn. rewrite lookup_insert_eq. simpl.
    rewrite list_lookup_alter_eq, !lookup_app_r by done.
    rewrite Nat.sub_diag. simpl. by rewrite Hinst.
  - done.
  - done.
  - intros Hnd. rewrite Hl3, Hl1. f_equal. by apply (foldl_push_new_distinct l []).
Qed.

Lemma declare_then_register_or_attach_witness :
  ∃ w1 w3,
    addController (E := picky) 0 twins = Ok w1
    ∧ addControllerHandlers (E := picky) "twin" (Many 0)
      (after (addController (E := picky) 1 twins)) = Ok w3
    ∧ routes_of w3 "twin" = routes_of w1 "twin"
    ∧ handlers_of w1 "twin" = Some [get_test; get_test]
    ∧ handlers_of w3 "twin" = Some [get_test].
Proof.
  destruct (declare_then_register_or_attach (E := picky) twins 0 1
              (Controller.mk "twin" 3 (Some 0)) (Controller.mk "twin" 3 None)
              0 [get_test; get_test])
    as (w1 & w2 & w3 & H1 & H2 & H3 & Hroutes & Hl1 & Hl3 & _).
  - by_evaluation.
  - reflexivity.
  - reflexivity.
  - reflexivity.
  - reflexivity.
  - reflexivity.
  - reflexivity.
  - reflexivity.
  - by_evaluation.
  - vm_compute. reflexivity.
  - exists w1, w3. rewrite H2. split; [exact H1|]. split; [exact H3|].
    split; [exact Hroutes|]. split; [exact Hl1 | exact Hl3].
Defined.